(** * hair-ai-line-bot: the conversation state machine of [index.js]

    A shallow embedding of the webhook handler [handleEvent] and of the
    Messenger helpers [reply] and [push], together with the properties of
    the conversation flow that the specification states about them.

    Modelling choices.
    - A JavaScript string is its sequence of UTF-16 code units ([list N]);
      the literals of the source are written as UTF-8 text and decoded by
      [js].
    - The table [userState] is a finite map from user id to state record.
      One call of [handleEvent] is modelled as running alone: the
      interleaving of two handlers at an [await] is outside the model.
    - The collaborators (LINE SDK client, image download, sharp, the Gemini
      call, the temporary file store) are an environment [Env]; what each
      call answers may depend on everything that happened before it (the
      trace). Every call is recorded in the trace with its outcome.
    - [console.error] and [console.log] are not modelled. *)

From Stdlib Require Import ZArith NArith List String Ascii Bool Lia Sorted.
From Stdlib Require Import DecimalN DecimalString.
From stdpp Require Import base decidable option list gmap.
Import ListNotations.

Local Open Scope N_scope.

(** ** JavaScript strings *)

Module JsString.

(** A string value: UTF-16 code units. *)
Definition jsstring := list N.

Definition bytes_of_string (s : string) : list N :=
  map (fun a => N_of_ascii a) (list_ascii_of_string s).

(** UTF-8 bytes to UTF-16 code units (well-formed input, as the source file
    is); a code point above U+FFFF becomes a surrogate pair. *)
Fixpoint utf16_of_utf8 (l : list N) : jsstring :=
  match l with
  | [] => []
  | b0 :: r0 =>
    if b0 <? 0x80 then b0 :: utf16_of_utf8 r0
    else match r0 with
    | [] => []
    | b1 :: r1 =>
      if b0 <? 0xE0 then
        (N.land b0 0x1F * 64 + N.land b1 0x3F) :: utf16_of_utf8 r1
      else match r1 with
      | [] => []
      | b2 :: r2 =>
        if b0 <? 0xF0 then
          (N.land b0 0x0F * 4096 + N.land b1 0x3F * 64 + N.land b2 0x3F)
            :: utf16_of_utf8 r2
        else match r2 with
        | [] => []
        | b3 :: r3 =>
          let cp := N.land b0 0x07 * 262144 + N.land b1 0x3F * 4096
                    + N.land b2 0x3F * 64 + N.land b3 0x3F in
          let v := cp - 0x10000 in
          (0xD800 + N.shiftr v 10) :: (0xDC00 + N.land v 0x3FF)
            :: utf16_of_utf8 r3
        end
      end
    end
  end.

(** The literal ['...'] of the source. *)
Definition js (s : string) : jsstring := utf16_of_utf8 (bytes_of_string s).

(** WhiteSpace and LineTerminator code points of ECMAScript, the ones
    [String.prototype.trim] strips. All are in the BMP. *)
Definition isWhiteSpace (c : N) : bool :=
  (c =? 0x09) || (c =? 0x0A) || (c =? 0x0B) || (c =? 0x0C) || (c =? 0x0D)
  || (c =? 0x20) || (c =? 0xA0) || (c =? 0x1680)
  || ((0x2000 <=? c) && (c <=? 0x200A))
  || (c =? 0x2028) || (c =? 0x2029) || (c =? 0x202F) || (c =? 0x205F)
  || (c =? 0x3000) || (c =? 0xFEFF).

Fixpoint trimStart (s : jsstring) : jsstring :=
  match s with
  | [] => []
  | c :: r => if isWhiteSpace c then trimStart r else s
  end.

Definition trimEnd (s : jsstring) : jsstring := rev (trimStart (rev s)).

(** [s.trim()] *)
Definition trim (s : jsstring) : jsstring := trimEnd (trimStart s).

(** Canonicalize of a case-insensitive, non-unicode regular expression. A
    code unit below 128 is upper-cased; a code unit from 128 on never
    canonicalizes to one below 128, and no code unit upper-cases to a kana.
    On the patterns of this program (ASCII letters and kana) only the ASCII
    folding can make two different code units match, so the rest of the
    upper-case table is left as the identity. *)
Definition canonicalize (c : N) : N :=
  if (0x61 <=? c) && (c <=? 0x7A) then c - 0x20 else c.

(** [/^(a1|a2|...)$/i.test(s)] for literal alternatives. *)
Definition test_anchored_alternatives_i (alts : list jsstring) (s : jsstring) : bool :=
  existsb (fun a => bool_decide (map canonicalize s = map canonicalize a)) alts.

Fixpoint startsWith (p s : jsstring) : bool :=
  match p, s with
  | [], _ => true
  | _ :: _, [] => false
  | a :: p', b :: s' => (a =? b) && startsWith p' s'
  end.

(** [/p/.test(s)] for a literal pattern [p]: [p] occurs somewhere in [s]. *)
Fixpoint test_literal (p s : jsstring) : bool :=
  startsWith p s ||
  match s with
  | [] => false
  | _ :: s' => test_literal p s'
  end.

(** [arr.includes(s)] *)
Definition includes (arr : list jsstring) (s : jsstring) : bool :=
  existsb (fun a => bool_decide (a = s)) arr.

End JsString.
Export JsString.

Local Open Scope string_scope.
Local Open Scope list_scope.

(** ** Data model *)

(** The values the fields of a state record take: a property that was never
    set, [null], or a string. *)
Inductive jsval :=
| undefined
| null
| str (s : jsstring).

(** ToBoolean: [undefined], [null] and the empty string are falsy. *)
Definition truthy (v : jsval) : bool :=
  match v with
  | str (_ :: _) => true
  | _ => false
  end.

(** [v || null] *)
Definition or_null (v : jsval) : jsval := if truthy v then v else null.

Inductive Step := await_face | await_style | await_model_image | await_color.

Definition Step_eqb (a b : Step) : bool :=
  match a, b with
  | await_face, await_face | await_style, await_style
  | await_model_image, await_model_image | await_color, await_color => true
  | _, _ => false
  end.

(** One entry of [userState]. *)
Record State := mkState {
  step : Step;
  faceB64 : jsval;
  style : jsval;
  color : jsval;
  modelB64 : jsval
}.

(** [{ step: 'await_face', faceB64: null, style: null, color: null }] *)
Definition fresh_state : State :=
  {| step := await_face; faceB64 := null; style := null; color := null;
     modelB64 := undefined |}.

Definition set_step (x : Step) (st : State) : State :=
  {| step := x; faceB64 := faceB64 st; style := style st; color := color st;
     modelB64 := modelB64 st |}.
Definition set_faceB64 (x : jsval) (st : State) : State :=
  {| step := step st; faceB64 := x; style := style st; color := color st;
     modelB64 := modelB64 st |}.
Definition set_style (x : jsval) (st : State) : State :=
  {| step := step st; faceB64 := faceB64 st; style := x; color := color st;
     modelB64 := modelB64 st |}.
Definition set_color (x : jsval) (st : State) : State :=
  {| step := step st; faceB64 := faceB64 st; style := style st; color := x;
     modelB64 := modelB64 st |}.
Definition set_modelB64 (x : jsval) (st : State) : State :=
  {| step := step st; faceB64 := faceB64 st; style := style st; color := color st;
     modelB64 := x |}.

(** Outbound messages. *)
Record Action := { label : jsstring; text : jsstring }.

Inductive Message :=
| text_message (text : jsstring) (quickReply : option (list Action))
| image_message (originalContentUrl previewImageUrl : jsstring).

(** [quickReply(items)]: one message action per label, label and text equal. *)
Definition quickReply (items : list jsstring) : list Action :=
  map (fun t => {| label := t; text := t |}) items.

(** Inbound events. *)
Inductive InMessage :=
| image_in (id : jsstring)
| text_in (text : option jsstring)      (* [None]: no [text] property *)
| other_in.

Inductive EventType :=
| type_message (message : InMessage)
| type_other.

Record Event := {
  userId : jsstring;
  replyToken : jsstring;
  type : EventType
}.

(** ** Collaborators, trace and the handler monad *)

(** An error object, by its class and message: a plain [Error] (what the
    code and the collaborators throw) or a [TypeError] of the engine. *)
Inductive JsError :=
| Error (message : string)
| TypeError (message : string).
Inductive ApiResponse := Response (body : string).
Definition Buffer := list N.

(** A settled promise. *)
Inductive Settled (A : Type) :=
| resolved (a : A)
| rejected (e : JsError).
Arguments resolved {A} a.
Arguments rejected {A} e.

(** The argument object of [callGeminiImageCompose]. *)
Record GeminiArgs := {
  arg_faceB64 : jsval;
  arg_modelB64 : jsval;
  arg_style : jsval;
  arg_color : jsval
}.

(** One call to a collaborator, with how it settled. *)
Inductive IO :=
| io_replyMessage (token : jsstring) (m : Message) (r : Settled ApiResponse)
| io_pushMessage (to : jsstring) (m : Message) (r : Settled ApiResponse)
| io_sleep (ms : Z)
| io_getImageBuffer (id : jsstring) (r : Settled Buffer)
| io_preprocessImage (buf : Buffer) (r : Settled Buffer)
| io_callGeminiImageCompose (a : GeminiArgs) (r : Settled jsstring)
| io_saveTempImage (b64 uid prefix : jsstring) (r : Settled jsstring).

Definition Trace := list IO.

(** The environment: the answer of each collaborator, given the trace so far
    and the arguments of the call. *)
Record Env := {
  client_replyMessage : Trace -> jsstring -> Message -> Settled ApiResponse;
  client_pushMessage : Trace -> jsstring -> Message -> Settled ApiResponse;
  env_getImageBuffer : Trace -> jsstring -> Settled Buffer;
  env_preprocessImage : Trace -> Buffer -> Settled Buffer;
  toString_base64 : Buffer -> jsstring;
  env_callGeminiImageCompose : Trace -> GeminiArgs -> Settled jsstring;
  env_saveTempImage : Trace -> jsstring -> jsstring -> jsstring -> Settled jsstring
}.

Record World := mkWorld {
  userState : gmap jsstring State;
  trace : Trace
}.

(** How a piece of handler code completes. *)
Inductive Completion (A : Type) :=
| Normal (a : A)
| Throw (e : JsError).
Arguments Normal {A} a.
Arguments Throw {A} e.

Definition M (A : Type) : Type := World -> Completion A * World.

Definition ret {A} (a : A) : M A := fun w => (Normal a, w).
Definition throw {A} (e : JsError) : M A := fun w => (Throw e, w).
Definition bind {A B} (m : M A) (k : A -> M B) : M B :=
  fun w => match m w with
           | (Normal a, w') => k a w'
           | (Throw e, w') => (Throw e, w')
           end.
(** [try { m } catch (e) { h e }] *)
Definition try_catch {A} (m : M A) (h : JsError -> M A) : M A :=
  fun w => match m w with
           | (Normal a, w') => (Normal a, w')
           | (Throw e, w') => h e w'
           end.

Notation "'let*' x ':=' m 'in' k" := (bind m (fun x => k))
  (at level 10, x name, m at level 100, k at level 200).
Notation "m ';;;' k" := (bind m (fun _ => k))
  (at level 100, k at level 200, right associativity).

(** [await p]: record the call, continue with its value or throw. *)
Definition await {A} (ask : Trace -> Settled A) (log : Settled A -> IO) : M A :=
  fun w =>
    let r := ask (trace w) in
    let w' := {| userState := userState w; trace := trace w ++ [log r] |} in
    match r with
    | resolved a => (Normal a, w')
    | rejected e => (Throw e, w')
    end.

(** [await sleep(ms)] *)
Definition sleep (ms : Z) : M unit :=
  fun w => (Normal tt, {| userState := userState w; trace := trace w ++ [io_sleep ms] |}).

(** [userState[userId] ||= fresh] *)
Definition ensure_user (uid : jsstring) : M unit :=
  fun w =>
    match userState w !! uid with
    | Some _ => (Normal tt, w)
    | None => (Normal tt, {| userState := <[uid := fresh_state]> (userState w);
                            trace := trace w |})
    end.

(** Reading [userState[userId]]; a property read on a missing entry throws. *)
Definition get_state (uid : jsstring) : M State :=
  fun w =>
    match userState w !! uid with
    | Some st => (Normal st, w)
    | None => (Throw (Error "TypeError"), w)
    end.

(** [userState[userId] = st] *)
Definition put_state (uid : jsstring) (st : State) : M unit :=
  fun w => (Normal tt, {| userState := <[uid := st]> (userState w); trace := trace w |}).

(** A field assignment through the reference [st = userState[userId]]. *)
Definition assign (uid : jsstring) (f : State -> State) : M unit :=
  let* st := get_state uid in put_state uid (f st).

(** ** The program *)

Definition STYLE_QR : list jsstring :=
  map js ["ショート"; "ボブ"; "ミディアム"; "ロング"; "ウルフ"; "メンズ";
          "モデル写真を送る📸"; "自由入力✍️"].
Definition COLOR_QR : list jsstring :=
  map js ["そのまま"; "黒髪"; "ミルクティー"; "ピンクベージュ"; "グレージュ";
          "自由入力✍️"].

(** The alternatives of [/^(こんにちは|こんちは|やあ|hi|hello)$/i]. *)
Definition GREETINGS : list jsstring :=
  map js ["こんにちは"; "こんちは"; "やあ"; "hi"; "hello"].

Definition isGreeting (txt : jsstring) : bool :=
  test_anchored_alternatives_i GREETINGS txt.

(** The texts the handler sends. *)
Definition msg_face_received : Message :=
  text_message (js "ナイスショット👌 どんな髪型を試してみる？（参考写真を送ってもOK）")
               (Some (quickReply STYLE_QR)).
Definition msg_model_received : Message :=
  text_message (js "モデル髪型の写真を受け取ったよ！ 髪色も変えてみる？🎨")
               (Some (quickReply COLOR_QR)).
Definition msg_face_updated : Message :=
  text_message (js "自撮りを更新したよ。次は髪型を選んでね✂️") (Some (quickReply STYLE_QR)).
Definition msg_hello : Message :=
  text_message (js "こんにちは！まずは自撮りを送ってください📸") None.
Definition msg_send_model : Message :=
  text_message (js "参考にしたい髪型の写真を送ってください📸（正面・明るめ推奨）") None.
Definition msg_type_style : Message :=
  text_message
    (js "なりたい髪型をテキストで教えてください（例：くびれボブ、ハンサムショート 等）") None.
Definition msg_type_color : Message :=
  text_message
    (js "髪色をテキストで教えてください（例：ピンクベージュ、ブルーブラック 等）") None.
Definition msg_ask_color : Message :=
  text_message (js "髪色も変えてみる？🎨") (Some (quickReply COLOR_QR)).
Definition msg_face_first : Message :=
  text_message (js "先に自撮りを送ってください📸") None.
Definition msg_generating : Message :=
  text_message (js "AIがスタイルを生成中です…⏳") None.
Definition msg_done : Message :=
  text_message (js "完成！似合ってますね✨ もう一度試す？")
    (Some (quickReply (map js ["もう一度試す"; "髪型を変える"; "髪色だけ変える"]))).
Definition msg_failed : Message :=
  text_message (js "ごめん、画像の生成に失敗しました。もう一度試してみてね🙏") None.
Definition msg_next_style : Message :=
  text_message (js "OK！次の髪型を選んでね✂️") (Some (quickReply STYLE_QR)).
Definition msg_which_style : Message :=
  text_message (js "どの髪型にする？") (Some (quickReply STYLE_QR)).
Definition msg_pick_color : Message :=
  text_message (js "髪色を選んでね🎨") (Some (quickReply COLOR_QR)).
Definition msg_photo_prompt : Message :=
  text_message (js "まずは自撮りを送ってください📸") None.

Section Program.

Variable E : Env.

(** *** Messenger *)

(** The loop [for (let i = ...; i < 3; i++)] of [reply], entered at [i]. It
    runs at most three times, so three units of fuel are never used up. *)
Fixpoint reply_loop (fuel : nat) (i : Z) (token : jsstring) (message : Message)
  : M (option ApiResponse) :=
  match fuel with
  | O => ret None
  | S fuel' =>
    if (i <? 3)%Z then
      try_catch
        (let* r := await (fun tr => client_replyMessage E tr token message)
                         (io_replyMessage token message) in
         ret (Some r))
        (fun e =>
           if (i =? 2)%Z then throw e
           else sleep (250 * (i + 1)) ;;; reply_loop fuel' (i + 1) token message)
    else ret None
  end.

Definition reply (token : jsstring) (message : Message) : M (option ApiResponse) :=
  reply_loop 3 0 token message.

Fixpoint push_loop (fuel : nat) (i : Z) (userId : jsstring) (message : Message)
  : M (option ApiResponse) :=
  match fuel with
  | O => ret None
  | S fuel' =>
    if (i <? 3)%Z then
      try_catch
        (let* r := await (fun tr => client_pushMessage E tr userId message)
                         (io_pushMessage userId message) in
         ret (Some r))
        (fun e =>
           if (i =? 2)%Z then throw e
           else sleep (250 * (i + 1)) ;;; push_loop fuel' (i + 1) userId message)
    else ret None
  end.

Definition push (userId : jsstring) (message : Message) : M (option ApiResponse) :=
  push_loop 3 0 userId message.

(** *** Collaborators called by the handler *)

Definition getImageBuffer (messageId : jsstring) : M Buffer :=
  await (fun tr => env_getImageBuffer E tr messageId) (io_getImageBuffer messageId).

Definition preprocessImage (buffer : Buffer) : M Buffer :=
  await (fun tr => env_preprocessImage E tr buffer) (io_preprocessImage buffer).

Definition callGeminiImageCompose (a : GeminiArgs) : M jsstring :=
  await (fun tr => env_callGeminiImageCompose E tr a) (io_callGeminiImageCompose a).

Definition saveTempImage (b64 userId prefix : jsstring) : M jsstring :=
  await (fun tr => env_saveTempImage E tr b64 userId prefix)
        (io_saveTempImage b64 userId prefix).

(** [userState[userId]?.faceB64 || null] *)
Definition faceB64_or_null (uid : jsstring) : M jsval :=
  fun w =>
    match userState w !! uid with
    | Some st => (Normal (or_null (faceB64 st)), w)
    | None => (Normal null, w)
    end.

(** *** The generation pipeline: the [try]/[catch] of the [await_color] branch *)
Definition generate (uid : jsstring) : M unit :=
  try_catch
    (let* st := get_state uid in
     let* imgB64 := callGeminiImageCompose
                      {| arg_faceB64 := faceB64 st;
                         arg_modelB64 := or_null (modelB64 st);
                         arg_style := style st;
                         arg_color := color st |} in
     let* url := saveTempImage imgB64 uid (js "hair") in
     push uid (image_message url url) ;;;
     push uid msg_done ;;;
     assign uid (set_step await_style) ;;;
     assign uid (set_modelB64 null) ;;;
     assign uid (set_color null))
    (fun err => push uid msg_failed ;;; ret tt).

(** *** [handleEvent], the image branch *)
Definition handleImage (uid token id : jsstring) : M (option ApiResponse) :=
  let* buf := getImageBuffer id in
  let* pre := preprocessImage buf in
  let b64 := toString_base64 E pre in
  let* st := get_state uid in
  if Step_eqb (step st) await_face || negb (truthy (faceB64 st)) then
    assign uid (set_faceB64 (str b64)) ;;;
    assign uid (set_step await_style) ;;;
    reply token msg_face_received
  else if Step_eqb (step st) await_model_image then
    assign uid (set_modelB64 (str b64)) ;;;
    assign uid (set_step await_color) ;;;
    reply token msg_model_received
  else
    assign uid (set_faceB64 (str b64)) ;;;
    assign uid (set_step await_style) ;;;
    reply token msg_face_updated.

(** [(m.text || '').trim()] *)
Definition trimmed_text (text : option jsstring) : jsstring :=
  trim (match text with Some s => s | None => [] end).

(** *** [handleEvent], the text branch *)
Definition handleText (uid token : jsstring) (text : option jsstring)
  : M (option ApiResponse) :=
  let txt := trimmed_text text in
  if isGreeting txt then
    put_state uid {| step := await_face; faceB64 := null; style := null;
                     color := null; modelB64 := undefined |} ;;;
    reply token msg_hello
  else
  let* st := get_state uid in
  if test_literal (js "モデル写真") txt then
    assign uid (set_step await_model_image) ;;;
    reply token msg_send_model
  else
  let isStylePick :=
    includes STYLE_QR txt
    && negb (bool_decide (txt = js "モデル写真を送る📸"))
    && negb (bool_decide (txt = js "自由入力✍️")) in
  let isColorPick :=
    includes COLOR_QR txt && negb (bool_decide (txt = js "自由入力✍️")) in
  if bool_decide (txt = js "自由入力✍️") then
    if Step_eqb (step st) await_style || negb (truthy (style st)) then
      assign uid (set_step await_style) ;;;
      reply token msg_type_style
    else
      assign uid (set_step await_color) ;;;
      reply token msg_type_color
  else
  if Step_eqb (step st) await_style then
    assign uid (set_style (str (if isStylePick then txt else txt))) ;;;
    assign uid (set_step await_color) ;;;
    reply token msg_ask_color
  else
  if Step_eqb (step st) await_color then
    assign uid (set_color
                  (str (if isColorPick
                        then (if bool_decide (txt = js "そのまま") then [] else txt)
                        else txt))) ;;;
    let* st := get_state uid in
    if negb (truthy (faceB64 st)) then
      assign uid (set_step await_face) ;;;
      reply token msg_face_first
    else
      reply token msg_generating ;;;
      generate uid ;;;
      ret None
  else
  if bool_decide (txt = js "もう一度試す") then
    let* face := faceB64_or_null uid in
    put_state uid {| step := await_style; faceB64 := face; style := null;
                     color := null; modelB64 := null |} ;;;
    reply token msg_next_style
  else
  if bool_decide (txt = js "髪型を変える") then
    assign uid (set_step await_style) ;;;
    assign uid (set_style null) ;;;
    assign uid (set_modelB64 null) ;;;
    reply token msg_which_style
  else
  if bool_decide (txt = js "髪色だけ変える") then
    assign uid (set_step await_color) ;;;
    reply token msg_pick_color
  else
    reply token msg_photo_prompt.

(** *** [handleEvent] *)
Definition handleEvent (event : Event) : M (option ApiResponse) :=
  let uid := userId event in
  ensure_user uid ;;;
  match type event with
  | type_message (image_in id) => handleImage uid (replyToken event) id
  | type_message (text_in text) => handleText uid (replyToken event) text
  | type_message other_in => ret None
  | type_other => ret None
  end.

End Program.

(** ** Reading a run *)

(** The state the handler works on: the stored one, or the fresh one that
    [userState[userId] ||= ...] creates. *)
Definition current_state (w : World) (uid : jsstring) : State :=
  match userState w !! uid with
  | Some st => st
  | None => fresh_state
  end.

(** The world after an event was handled, and what was emitted meanwhile. *)
Definition after (E : Env) (ev : Event) (w : World) : World :=
  snd (handleEvent E ev w).

Definition emitted (E : Env) (ev : Event) (w : World) : Trace :=
  drop (length (trace w)) (trace (after E ev w)).

(** Outcomes of the delivery attempts, and the delays slept, in a trace. *)
Definition attempts (tr : Trace) : list (Settled ApiResponse) :=
  omap (fun x => match x with
                 | io_replyMessage _ _ r | io_pushMessage _ _ r => Some r
                 | _ => None
                 end) tr.

Definition delays (tr : Trace) : list Z :=
  omap (fun x => match x with io_sleep ms => Some ms | _ => None end) tr.

Definition delivered (tr : Trace) : list Message :=
  omap (fun x => match x with
                 | io_replyMessage _ m (resolved _)
                 | io_pushMessage _ m (resolved _) => Some m
                 | _ => None
                 end) tr.

(** The four ways the retry loop of [reply] and [push] can go, with the
    trace it leaves; [mk] builds the trace entry of one attempt. *)
Inductive retry_run (mk : Settled ApiResponse -> IO)
  : Trace -> Completion (option ApiResponse) -> Prop :=
| retry_first r :
    retry_run mk [mk (resolved r)] (Normal (Some r))
| retry_second e0 r :
    retry_run mk [mk (rejected e0); io_sleep 250; mk (resolved r)] (Normal (Some r))
| retry_third e0 e1 r :
    retry_run mk [mk (rejected e0); io_sleep 250; mk (rejected e1); io_sleep 500;
                  mk (resolved r)] (Normal (Some r))
| retry_exhausted e0 e1 e2 :
    retry_run mk [mk (rejected e0); io_sleep 250; mk (rejected e1); io_sleep 500;
                  mk (rejected e2)] (Throw e2).

(** A reply with [m] on [token] was attempted, and nothing else was done. *)
Definition replied (token : jsstring) (m : Message) (tr : Trace) : Prop :=
  exists c, retry_run (io_replyMessage token m) tr c.

Definition is_gemini_call (x : IO) : bool :=
  match x with io_callGeminiImageCompose _ _ => true | _ => false end.

(** The value [st.color] gets from a text in the AWAIT_COLOR branch: the
    empty string for [そのまま], the text itself otherwise. *)
Definition color_value (txt : jsstring) : jsstring :=
  if bool_decide (txt = js "そのまま") then [] else txt.

(** The arguments the pipeline hands to the Gemini call in state [st]. *)
Definition gemini_args (st : State) : GeminiArgs :=
  {| arg_faceB64 := faceB64 st;
     arg_modelB64 := or_null (modelB64 st);
     arg_style := style st;
     arg_color := color st |}.

(** The state after a completed pipeline. *)
Definition cycle_done (st : State) : State :=
  set_color null (set_modelB64 null (set_step await_style st)).

Definition drop_value {A} (c : Completion A) : Completion unit :=
  match c with
  | Normal _ => Normal tt
  | Throw e => Throw e
  end.

(** The ways the pipeline [generate] can go for a user in state [st]: the
    trace it leaves, the state it leaves and how it completes. *)
Inductive generate_run (uid : jsstring) (st : State)
  : Trace -> State -> Completion unit -> Prop :=
| gen_completed img url tr1 r1 tr2 r2 :
    retry_run (io_pushMessage uid (image_message url url)) tr1 (Normal r1) ->
    retry_run (io_pushMessage uid msg_done) tr2 (Normal r2) ->
    generate_run uid st
      (io_callGeminiImageCompose (gemini_args st) (resolved img)
       :: io_saveTempImage img uid (js "hair") (resolved url) :: tr1 ++ tr2)
      (cycle_done st) (Normal tt)
| gen_gemini_failed e trf c :
    retry_run (io_pushMessage uid msg_failed) trf c ->
    generate_run uid st
      (io_callGeminiImageCompose (gemini_args st) (rejected e) :: trf)
      st (drop_value c)
| gen_save_failed img e trf c :
    retry_run (io_pushMessage uid msg_failed) trf c ->
    generate_run uid st
      (io_callGeminiImageCompose (gemini_args st) (resolved img)
       :: io_saveTempImage img uid (js "hair") (rejected e) :: trf)
      st (drop_value c)
| gen_image_push_failed img url tr1 e trf c :
    retry_run (io_pushMessage uid (image_message url url)) tr1 (Throw e) ->
    retry_run (io_pushMessage uid msg_failed) trf c ->
    generate_run uid st
      (io_callGeminiImageCompose (gemini_args st) (resolved img)
       :: io_saveTempImage img uid (js "hair") (resolved url) :: tr1 ++ trf)
      st (drop_value c)
| gen_done_push_failed img url tr1 r1 tr2 e trf c :
    retry_run (io_pushMessage uid (image_message url url)) tr1 (Normal r1) ->
    retry_run (io_pushMessage uid msg_done) tr2 (Throw e) ->
    retry_run (io_pushMessage uid msg_failed) trf c ->
    generate_run uid st
      (io_callGeminiImageCompose (gemini_args st) (resolved img)
       :: io_saveTempImage img uid (js "hair") (resolved url) :: tr1 ++ tr2 ++ trf)
      st (drop_value c).

(** The texts of the follow-up buttons. *)
Definition SHORTCUTS : list jsstring :=
  map js ["もう一度試す"; "髪型を変える"; "髪色だけ変える"].

(** A text that is no greeting, no quick-reply label or marker and no
    shortcut. *)
Definition unrecognized (txt : jsstring) : bool :=
  negb (isGreeting txt) && negb (includes STYLE_QR txt)
  && negb (includes COLOR_QR txt) && negb (includes SHORTCUTS txt).

(** The ways the AWAIT_COLOR branch goes once a selfie is stored: the
    "generating" reply, then the pipeline. *)
Inductive trigger_run (uid token : jsstring) (st : State)
  : Trace -> State -> Completion (option ApiResponse) -> Prop :=
| trigger_reply_failed trr e :
    retry_run (io_replyMessage token msg_generating) trr (Throw e) ->
    trigger_run uid token st trr st (Throw e)
| trigger_generated trr r trg st' c :
    retry_run (io_replyMessage token msg_generating) trr (Normal r) ->
    generate_run uid st trg st' c ->
    trigger_run uid token st (trr ++ trg) st'
      (match c with Normal _ => Normal None | Throw e => Throw e end).

(** ** The Messenger *)

(** What the caller of the retry loop gets is what the platform answered to
    the last attempt: [ask] is the platform call, [tr0] the trace before the
    loop and [tr] the trace of the loop. *)
Definition last_answer (ask : Trace -> Settled ApiResponse) (tr0 tr : Trace)
  (c : Completion (option ApiResponse)) : Prop :=
  match c with
  | Normal (Some r) => ask (tr0 ++ removelast tr) = resolved r
  | Normal None => False
  | Throw e => ask (tr0 ++ removelast tr) = rejected e
  end.

(** ** Sample environments and inputs *)

(** Every collaborator succeeds at once. *)
Definition calm_env : Env :=
  {| client_replyMessage := fun _ _ _ => resolved (Response "{}");
     client_pushMessage := fun _ _ _ => resolved (Response "{}");
     env_getImageBuffer := fun _ id => resolved id;
     env_preprocessImage := fun _ buf => resolved buf;
     toString_base64 := fun buf => buf;
     env_callGeminiImageCompose := fun _ _ => resolved (js "aW1n");
     env_saveTempImage := fun _ _ _ _ => resolved (js "https://bot.example/tmp/hair.jpg") |}.

(** As [calm_env], but the Gemini call fails. *)
Definition gemini_down_env : Env :=
  {| client_replyMessage := client_replyMessage calm_env;
     client_pushMessage := client_pushMessage calm_env;
     env_getImageBuffer := env_getImageBuffer calm_env;
     env_preprocessImage := env_preprocessImage calm_env;
     toString_base64 := toString_base64 calm_env;
     env_callGeminiImageCompose := fun _ _ => rejected (Error "Gemini API error 500");
     env_saveTempImage := env_saveTempImage calm_env |}.

Definition text_event (t : string) : Event :=
  {| userId := js "U1"; replyToken := js "T1";
     type := type_message (text_in (Some (js t))) |}.

Definition image_event (id : string) : Event :=
  {| userId := js "U1"; replyToken := js "T1";
     type := type_message (image_in (js id)) |}.

(** A table holding [st] for the sample user, and nothing sent so far. *)
Definition world_of (st : State) : World :=
  {| userState := {[ js "U1" := st ]}; trace := [] |}.

Definition no_users : World := {| userState := ∅; trace := [] |}.

(** ** Every run of the handler *)

(** What the image branch does before it replies: nothing in the other
    branches, a download and a sharp run that both succeeded in this one. *)
Inductive fetched : Trace -> Prop :=
| fetched_nothing : fetched []
| fetched_image id buf pre :
    fetched [io_getImageBuffer id (resolved buf);
             io_preprocessImage buf (resolved pre)].

(** The ways one call of [handleEvent] can go for a user whose state is
    [st]: the trace it leaves, the state it leaves and how it completes. *)
Inductive event_run (uid token : jsstring) (st : State)
  : Trace -> State -> Completion (option ApiResponse) -> Prop :=
| run_silent :
    event_run uid token st [] st (Normal None)
| run_download_failed id e :
    event_run uid token st [io_getImageBuffer id (rejected e)] st (Throw e)
| run_sharp_failed id buf e :
    event_run uid token st
      [io_getImageBuffer id (resolved buf); io_preprocessImage buf (rejected e)]
      st (Throw e)
| run_replied pre msg st' tr c :
    fetched pre ->
    retry_run (io_replyMessage token msg) tr c ->
    event_run uid token st (pre ++ tr) st' c
| run_triggered txt tr st' c :
    step st = await_color ->
    truthy (faceB64 st) = true ->
    trigger_run uid token (set_color (str (color_value txt)) st) tr st' c ->
    event_run uid token st tr st' c.

(** A call that was rejected with [e]. *)
Definition rejected_with (e : JsError) (x : IO) : Prop :=
  match x with
  | io_replyMessage _ _ (rejected e')
  | io_pushMessage _ _ (rejected e')
  | io_getImageBuffer _ (rejected e')
  | io_preprocessImage _ (rejected e') => e' = e
  | _ => False
  end.

(** The reply attempts of a trace, as (token, message), the messages
    replied with success, and the Gemini calls. *)
Definition reply_attempts (tr : Trace) : list (jsstring * Message) :=
  omap (fun x => match x with
                 | io_replyMessage t m _ => Some (t, m)
                 | _ => None
                 end) tr.

Definition replies_delivered (tr : Trace) : list Message :=
  omap (fun x => match x with
                 | io_replyMessage _ m (resolved _) => Some m
                 | _ => None
                 end) tr.

Definition gemini_calls (tr : Trace) : list GeminiArgs :=
  omap (fun x => match x with
                 | io_callGeminiImageCompose a _ => Some a
                 | _ => None
                 end) tr.

Definition pushes (tr : Trace) : list (jsstring * Message) :=
  omap (fun x => match x with
                 | io_pushMessage u m _ => Some (u, m)
                 | _ => None
                 end) tr.

(** The LINE client rejects every reply. *)
Definition reply_down_env : Env :=
  {| client_replyMessage := fun _ _ _ => rejected (Error "429");
     client_pushMessage := client_pushMessage calm_env;
     env_getImageBuffer := env_getImageBuffer calm_env;
     env_preprocessImage := env_preprocessImage calm_env;
     toString_base64 := toString_base64 calm_env;
     env_callGeminiImageCompose := env_callGeminiImageCompose calm_env;
     env_saveTempImage := env_saveTempImage calm_env |}.

(** The image download fails. *)
Definition download_down_env : Env :=
  {| client_replyMessage := client_replyMessage calm_env;
     client_pushMessage := client_pushMessage calm_env;
     env_getImageBuffer := fun _ _ => rejected (Error "404");
     env_preprocessImage := env_preprocessImage calm_env;
     toString_base64 := toString_base64 calm_env;
     env_callGeminiImageCompose := env_callGeminiImageCompose calm_env;
     env_saveTempImage := env_saveTempImage calm_env |}.

(** The temporary file cannot be written. *)
Definition store_down_env : Env :=
  {| client_replyMessage := client_replyMessage calm_env;
     client_pushMessage := client_pushMessage calm_env;
     env_getImageBuffer := env_getImageBuffer calm_env;
     env_preprocessImage := env_preprocessImage calm_env;
     toString_base64 := toString_base64 calm_env;
     env_callGeminiImageCompose := env_callGeminiImageCompose calm_env;
     env_saveTempImage := fun _ _ _ _ => rejected (Error "ENOSPC") |}.

Definition other_event (uid : string) : Event :=
  {| userId := js uid; replyToken := js "T1"; type := type_other |}.

(** ** The temporary file store: names and URLs *)

(** The decimal digits of a number, as the template literal
    [`${Date.now()}`] renders a non-negative integer below 10^21. *)
Fixpoint digits (u : Decimal.uint) : jsstring :=
  match u with
  | Decimal.Nil => []
  | Decimal.D0 u => 0x30 :: digits u
  | Decimal.D1 u => 0x31 :: digits u
  | Decimal.D2 u => 0x32 :: digits u
  | Decimal.D3 u => 0x33 :: digits u
  | Decimal.D4 u => 0x34 :: digits u
  | Decimal.D5 u => 0x35 :: digits u
  | Decimal.D6 u => 0x36 :: digits u
  | Decimal.D7 u => 0x37 :: digits u
  | Decimal.D8 u => 0x38 :: digits u
  | Decimal.D9 u => 0x39 :: digits u
  end.

Definition number_text (n : N) : jsstring := digits (N.to_uint n).

(** [`${prefix}_${userId}_${Date.now()}.jpg`], with [now] the value of
    [Date.now()]. *)
Definition temp_filename (prefix userId : jsstring) (now : N) : jsstring :=
  prefix ++ js "_" ++ userId ++ js "_" ++ number_text now ++ js ".jpg".

(** [`${PUBLIC_BASE_URL}/tmp/${filename}`] *)
Definition temp_url (PUBLIC_BASE_URL filename : jsstring) : jsstring :=
  PUBLIC_BASE_URL ++ js "/tmp/" ++ filename.

(** ** The Gemini client: [callGeminiImageCompose] from the inside *)

(** [parts.join(sep)] for an array of strings. *)
Fixpoint join (sep : jsstring) (parts : list jsstring) : jsstring :=
  match parts with
  | [] => []
  | [x] => x
  | x :: rest => x ++ sep ++ join sep rest
  end.

(** [`${v}`] *)
Definition template_text (v : jsval) : jsstring :=
  match v with
  | str s => s
  | null => js "null"
  | undefined => js "undefined"
  end.

(** The instruction sent along with the images. *)
Definition gemini_prompt (style color : jsval) : jsstring :=
  join (js " ")
    [ js "ユーザーの顔写真をベースに、モデル写真の髪型を自然に合成してください。";
      if truthy style
      then js "髪型のカテゴリは「" ++ template_text style ++ js "」です。"
      else [];
      if truthy color
      then js "髪色は「" ++ template_text color ++ js "」で仕上げてください。"
      else js "髪色は顔写真のままでもOKです。";
      js "背景は残し、全体のトーンは明るめで自然に整えてください。";
      js "出力は縦構図（3:4）で、スマホ向けに見やすく生成してください。" ].

(** One element of [body.contents[0].parts]. *)
Inductive Part :=
| inline_data_part (mime_type : jsstring) (data : jsval)
| text_part (text : jsstring).

Definition gemini_parts (a : GeminiArgs) : list Part :=
  [inline_data_part (js "image/jpeg") (arg_faceB64 a)]
  ++ (if truthy (arg_modelB64 a)
      then [inline_data_part (js "image/jpeg") (arg_modelB64 a)]
      else [])
  ++ [text_part (gemini_prompt (arg_style a) (arg_color a))].

(** The POST request: its URL and the parts of its body. *)
Record GeminiRequest := {
  req_url : jsstring;
  req_parts : list Part
}.

Definition gemini_url : jsstring :=
  js "https://generativelanguage.googleapis.com/v1beta/models/gemini-2.5-flash-image:generateContent".

(** [GEMINI_API_KEY] is [None] when the variable is not set. *)
Definition gemini_request (GEMINI_API_KEY : option jsstring) (a : GeminiArgs)
  : GeminiRequest :=
  {| req_url := gemini_url ++ js "?key="
                ++ match GEMINI_API_KEY with Some k => k | None => js "undefined" end;
     req_parts := gemini_parts a |}.

Section GeminiResponse.

(** The numbers of a parsed JSON document, of which this code only asks
    whether they are truthy (not zero). *)
Variable number : Type.
Variable number_truthy : number -> bool.

(** What [resp.json()] yields. An object holds its properties by name, each
    name once. *)
#[local] Unset Elimination Schemes.
Inductive json :=
| JNull
| JBool (b : bool)
| JNumber (n : number)
| JString (s : jsstring)
| JArray (items : list json)
| JObject (fields : list (jsstring * json)).
#[local] Set Elimination Schemes.

(** ToBoolean of a value that may be [undefined] ([None]). *)
Definition json_truthy (v : option json) : bool :=
  match v with
  | None | Some JNull => false
  | Some (JBool b) => b
  | Some (JNumber n) => number_truthy n
  | Some (JString s) => match s with [] => false | _ => true end
  | Some (JArray _) | Some (JObject _) => true
  end.

Fixpoint lookup_field (key : jsstring) (fields : list (jsstring * json)) : option json :=
  match fields with
  | [] => None
  | (k, v) :: rest => if bool_decide (k = key) then Some v else lookup_field key rest
  end.

(** [o.key] for [o] neither [null] nor [undefined] and [key] one of the names
    this code reads ([candidates], [content], [parts], [inline_data], [data]):
    only an object can have such a property. *)
Definition get_named (key : jsstring) (o : json) : option json :=
  match o with
  | JObject fields => lookup_field key fields
  | _ => None
  end.

(** [o[0]] for [o] neither [null] nor [undefined]. *)
Definition get_first (o : json) : option json :=
  match o with
  | JArray (x :: _) => Some x
  | JString (c :: _) => Some (JString [c])
  | JObject fields => lookup_field (js "0") fields
  | _ => None
  end.

(** [v?.f]: [undefined] when [v] is [null] or [undefined]. *)
Definition chain (v : option json) (f : json -> option json) : option json :=
  match v with
  | None | Some JNull => None
  | Some o => f o
  end.

(** [data?.candidates?.[0]?.content?.parts || []] *)
Definition response_parts (data : json) : json :=
  let v := chain (chain (chain (chain (Some data) (get_named (js "candidates")))
                               get_first)
                        (get_named (js "content")))
                 (get_named (js "parts")) in
  if json_truthy v then match v with Some parts => parts | None => JArray [] end
  else JArray [].

(** [p.inline_data?.data], for an element [p] that is not [null]. *)
Definition image_data (p : json) : option json :=
  chain (get_named (js "inline_data") p) (get_named (js "data")).

(** [items.find(p => p.inline_data?.data)]; reading [inline_data] of a
    [null] element is the engine's TypeError
    [Cannot read properties of null (reading 'inline_data')]. *)
Fixpoint find_image_part (items : list json) : Completion (option json) :=
  match items with
  | [] => Normal None
  | JNull :: _ =>
    Throw (TypeError "Cannot read properties of null (reading 'inline_data')")
  | p :: rest =>
    if json_truthy (image_data p) then Normal (Some p) else find_image_part rest
  end.

(** The answer of [fetch]: [resp.ok], [resp.status], and what [resp.text()]
    and [resp.json()] settle to. *)
Record FetchResponse := {
  ok : bool;
  status : N;
  body_text : Settled jsstring;
  body_json : Settled json
}.

(** [callGeminiImageCompose], with [fetch] as the collaborator. *)
Definition callGeminiImageCompose_impl
    (fetch : GeminiRequest -> Settled FetchResponse)
    (GEMINI_API_KEY : option jsstring) (a : GeminiArgs) : Completion json :=
  match fetch (gemini_request GEMINI_API_KEY a) with
  | rejected e => Throw e
  | resolved resp =>
    if negb (ok resp) then
      match body_text resp with
      | rejected e => Throw e
      | resolved errText =>
        Throw (Error ("Gemini API error "
                      ++ NilEmpty.string_of_uint (N.to_uint (status resp))))
      end
    else
      match body_json resp with
      | rejected e => Throw e
      | resolved data =>
        match response_parts data with
        | JArray items =>
          match find_image_part items with
          | Throw e => Throw e
          | Normal None => Throw (Error "No image data returned from Gemini.")
          | Normal (Some imagePart) =>
            match image_data imagePart with
            | Some d => Normal d
            | None =>
              Throw (TypeError "Cannot read properties of undefined (reading 'data')")
            end
          end
        | _ => Throw (TypeError "parts.find is not a function")
        end
      end
  end.

End GeminiResponse.

Arguments JNull {number}.
Arguments JBool {number} b.
Arguments JNumber {number} n.
Arguments JString {number} s.
Arguments JArray {number} items.
Arguments JObject {number} fields.

(** Parts with the image in the second place, after a text part, and a
    response that holds them. *)
Definition sample_parts : list (json Z) :=
  [JObject [(js "text", JString (js "done"))];
   JObject [(js "inline_data",
             JObject [(js "mime_type", JString (js "image/png"));
                      (js "data", JString (js "aW1n"))])]].

Definition sample_response : json Z :=
  JObject [(js "candidates",
            JArray [JObject [(js "content",
                             JObject [(js "parts", JArray sample_parts)])]])].

Definition Z_truthy (n : Z) : bool := negb (n =? 0)%Z.

Definition sample_fetch (st : N) (data : json Z) (_ : GeminiRequest)
  : Settled (FetchResponse Z) :=
  resolved {| ok := ((200 <=? st) && (st <? 300))%N; status := st;
              body_text := resolved (js "{}"); body_json := resolved data |}.

Definition sample_args : GeminiArgs :=
  {| arg_faceB64 := str (js "F"); arg_modelB64 := null;
     arg_style := str (js "ボブ"); arg_color := str [] |}.

(** * Properties *)

(** The code units behind three of the literals. *)
Example js_model_label :
  js "モデル写真を送る📸"
  = [0x30E2; 0x30C7; 0x30EB; 0x5199; 0x771F; 0x3092; 0x9001; 0x308B; 0xD83D; 0xDCF8].
Proof. reflexivity. Qed.

Example js_free_text_marker :
  js "自由入力✍️" = [0x81EA; 0x7531; 0x5165; 0x529B; 0x270D; 0xFE0F].
Proof. reflexivity. Qed.

Example trim_example : trim (js "  Hello　") = js "Hello".
Proof. reflexivity. Qed.

(** The greeting test ignores ASCII case and needs the whole text. *)
Example greeting_examples :
  isGreeting (js "HeLLo") = true
  /\ isGreeting (js "こんにちは") = true
  /\ isGreeting (js "hello!") = false
  /\ isGreeting (js "") = false.
Proof. repeat split; reflexivity. Qed.

(** A new user sends a photo: the selfie is stored, the step becomes
    AWAIT_STYLE and the reply offers the style buttons. *)
Example new_user_sends_photo :
  userState (after calm_env (image_event "m1") no_users) !! js "U1"
  = Some {| step := await_style; faceB64 := str (js "m1"); style := null;
            color := null; modelB64 := undefined |}
  /\ delivered (emitted calm_env (image_event "m1") no_users) = [msg_face_received].
Proof. split; vm_compute; reflexivity. Qed.

(** A style label in step AWAIT_STYLE, then [そのまま] in step AWAIT_COLOR:
    the color is the empty string in the Gemini call, and the user gets the
    "generating" reply, the image and the completion message. *)
Example style_then_keep_color :
  let w1 := after calm_env (text_event "ボブ")
              (world_of {| step := await_style; faceB64 := str (js "F");
                           style := null; color := null; modelB64 := undefined |}) in
  userState w1 !! js "U1"
  = Some {| step := await_color; faceB64 := str (js "F"); style := str (js "ボブ");
            color := null; modelB64 := undefined |}
  /\ emitted calm_env (text_event "そのまま") w1
     = [io_replyMessage (js "T1") msg_generating (resolved (Response "{}"));
        io_callGeminiImageCompose
          {| arg_faceB64 := str (js "F"); arg_modelB64 := null;
             arg_style := str (js "ボブ"); arg_color := str [] |}
          (resolved (js "aW1n"));
        io_saveTempImage (js "aW1n") (js "U1") (js "hair")
          (resolved (js "https://bot.example/tmp/hair.jpg"));
        io_pushMessage (js "U1")
          (image_message (js "https://bot.example/tmp/hair.jpg")
                         (js "https://bot.example/tmp/hair.jpg"))
          (resolved (Response "{}"));
        io_pushMessage (js "U1") msg_done (resolved (Response "{}"))].
Proof. split; vm_compute; reflexivity. Qed.

(** ** The retry loop *)

Ltac close_last_answer :=
  unfold last_answer; simpl; rewrite <- ?app_assoc in *; simpl in *;
  rewrite ?app_nil_r; assumption.

Section Messenger.

Variable E : Env.

Lemma reply_run token message w :
  exists c tr,
    reply E token message w = (c, mkWorld (userState w) (trace w ++ tr))
    /\ retry_run (io_replyMessage token message) tr c
    /\ last_answer (fun t => client_replyMessage E t token message) (trace w) tr c.
Proof.
  unfold reply, reply_loop, try_catch, bind, await, sleep, ret, throw; simpl.
  destruct (client_replyMessage E (trace w) token message) as [r|e0] eqn:H0.
  { eexists _, _; split; [reflexivity|split; [constructor|]].
    close_last_answer. }
  rewrite <- !app_assoc; simpl.
  match goal with |- context [client_replyMessage E ?t token message] =>
    destruct (client_replyMessage E t token message) as [r|e1] eqn:H1 end.
  { eexists _, _; split; [rewrite <- !app_assoc; reflexivity|split; [constructor|]].
    close_last_answer. }
  rewrite <- !app_assoc; simpl.
  match goal with |- context [client_replyMessage E ?t token message] =>
    destruct (client_replyMessage E t token message) as [r|e2] eqn:H2 end.
  { eexists _, _; split; [rewrite <- !app_assoc; reflexivity|split; [constructor|]].
    close_last_answer. }
  eexists _, _; split; [rewrite <- !app_assoc; reflexivity|split; [constructor|]].
  close_last_answer.
Qed.

Lemma push_run userId message w :
  exists c tr,
    push E userId message w = (c, mkWorld (userState w) (trace w ++ tr))
    /\ retry_run (io_pushMessage userId message) tr c
    /\ last_answer (fun t => client_pushMessage E t userId message) (trace w) tr c.
Proof.
  unfold push, push_loop, try_catch, bind, await, sleep, ret, throw; simpl.
  destruct (client_pushMessage E (trace w) userId message) as [r|e0] eqn:H0.
  { eexists _, _; split; [reflexivity|split; [constructor|]].
    close_last_answer. }
  rewrite <- !app_assoc; simpl.
  match goal with |- context [client_pushMessage E ?t userId message] =>
    destruct (client_pushMessage E t userId message) as [r|e1] eqn:H1 end.
  { eexists _, _; split; [rewrite <- !app_assoc; reflexivity|split; [constructor|]].
    close_last_answer. }
  rewrite <- !app_assoc; simpl.
  match goal with |- context [client_pushMessage E ?t userId message] =>
    destruct (client_pushMessage E t userId message) as [r|e2] eqn:H2 end.
  { eexists _, _; split; [rewrite <- !app_assoc; reflexivity|split; [constructor|]].
    close_last_answer. }
  eexists _, _; split; [rewrite <- !app_assoc; reflexivity|split; [constructor|]].
  close_last_answer.
Qed.

End Messenger.

(** What a run of the retry loop looks like, whichever way it went. *)
Lemma retry_run_bounds mk tr c :
  (forall o l, attempts (mk o :: l) = o :: attempts l) ->
  (forall o l, delays (mk o :: l) = delays l) ->
  retry_run mk tr c ->
  (1 <= length (attempts tr) <= 3)%nat
  /\ (length (delays tr) + 1 = length (attempts tr))%nat
  /\ StronglySorted Z.lt (delays tr)
  /\ match c with
     | Normal (Some r) =>
         exists errs, attempts tr = map rejected errs ++ [resolved r]
     | Normal None => False
     | Throw e =>
         exists e0 e1, attempts tr = [rejected e0; rejected e1; rejected e]
     end.
Proof.
  intros Hat Hdl H.
  assert (Has : forall ms l, attempts (io_sleep ms :: l) = attempts l) by reflexivity.
  assert (Hds : forall ms l, delays (io_sleep ms :: l) = ms :: delays l) by reflexivity.
  destruct H;
    repeat first [rewrite Hat | rewrite Hdl | rewrite Has | rewrite Hds];
    change (attempts []) with (@nil (Settled ApiResponse));
    change (delays []) with (@nil Z); simpl;
    (split; [lia|]); (split; [reflexivity|]); (split; [repeat constructor; lia|]).
  - exists []; reflexivity.
  - exists [e0]; reflexivity.
  - exists [e0; e1]; reflexivity.
  - exists e0, e1; reflexivity.
Qed.

(** C8. The Messenger operations [reply] and [push] each attempt delivery at
    most three times, sleeping 250 ms and then 500 ms between attempts
    (strictly increasing), return the platform's result of the first attempt
    that succeeds (every attempt before it failed), and throw the error of
    the third attempt when all three fail. Neither touches [userState]. *)
Theorem messenger_bounded_retry (E : Env) (target : jsstring) (message : Message)
    (w : World) :
  (exists c tr,
      reply E target message w = (c, mkWorld (userState w) (trace w ++ tr))
      /\ retry_run (io_replyMessage target message) tr c
      /\ last_answer (fun t => client_replyMessage E t target message) (trace w) tr c
      /\ (1 <= length (attempts tr) <= 3)%nat
      /\ (length (delays tr) + 1 = length (attempts tr))%nat
      /\ StronglySorted Z.lt (delays tr)
      /\ match c with
         | Normal (Some r) =>
             exists errs, attempts tr = map rejected errs ++ [resolved r]
         | Normal None => False
         | Throw e =>
             exists e0 e1, attempts tr = [rejected e0; rejected e1; rejected e]
         end)
  /\
  (exists c tr,
      push E target message w = (c, mkWorld (userState w) (trace w ++ tr))
      /\ retry_run (io_pushMessage target message) tr c
      /\ last_answer (fun t => client_pushMessage E t target message) (trace w) tr c
      /\ (1 <= length (attempts tr) <= 3)%nat
      /\ (length (delays tr) + 1 = length (attempts tr))%nat
      /\ StronglySorted Z.lt (delays tr)
      /\ match c with
         | Normal (Some r) =>
             exists errs, attempts tr = map rejected errs ++ [resolved r]
         | Normal None => False
         | Throw e =>
             exists e0 e1, attempts tr = [rejected e0; rejected e1; rejected e]
         end).
Proof.
  split.
  - destruct (reply_run E target message w) as (c & tr & Hr & Hrun & Hlast).
    exists c, tr. repeat (split; [assumption|]).
    apply (retry_run_bounds (io_replyMessage target message)); auto.
  - destruct (push_run E target message w) as (c & tr & Hr & Hrun & Hlast).
    exists c, tr. repeat (split; [assumption|]).
    apply (retry_run_bounds (io_pushMessage target message)); auto.
Qed.

(** ** Running the handler *)

Section Running.

Variable E : Env.

Lemma ensure_user_run uid w :
  ensure_user uid w
  = (Normal tt, mkWorld (<[uid := current_state w uid]> (userState w)) (trace w)).
Proof.
  unfold ensure_user, current_state. destruct w as [m tr]; simpl.
  destruct (m !! uid) eqn:Hl; [|reflexivity].
  now rewrite insert_id.
Qed.

Lemma get_state_insert (uid : jsstring) (st : State) (m : gmap jsstring State) (tr : Trace) :
  get_state uid (mkWorld (<[uid := st]> m) tr)
  = (Normal st, mkWorld (<[uid := st]> m) tr).
Proof. unfold get_state; simpl. now rewrite lookup_insert_eq. Qed.

Lemma put_state_insert (uid : jsstring) (st st' : State) (m : gmap jsstring State) (tr : Trace) :
  put_state uid st' (mkWorld (<[uid := st]> m) tr)
  = (Normal tt, mkWorld (<[uid := st']> m) tr).
Proof. unfold put_state; simpl. now rewrite insert_insert_eq. Qed.

Lemma assign_insert (uid : jsstring) (f : State -> State) (st : State)
    (m : gmap jsstring State) (tr : Trace) :
  assign uid f (mkWorld (<[uid := st]> m) tr)
  = (Normal tt, mkWorld (<[uid := f st]> m) tr).
Proof.
  unfold assign, bind. now rewrite get_state_insert, put_state_insert.
Qed.

Lemma faceB64_or_null_insert (uid : jsstring) (st : State) (m : gmap jsstring State) (tr : Trace) :
  faceB64_or_null uid (mkWorld (<[uid := st]> m) tr)
  = (Normal (or_null (faceB64 st)), mkWorld (<[uid := st]> m) tr).
Proof. unfold faceB64_or_null; simpl. now rewrite lookup_insert_eq. Qed.

Lemma handleEvent_text ev text w :
  type ev = type_message (text_in text) ->
  handleEvent E ev w
  = handleText E (userId ev) (replyToken ev) text
      (mkWorld (<[userId ev := current_state w (userId ev)]> (userState w)) (trace w)).
Proof.
  intros Ht. unfold handleEvent, bind. now rewrite ensure_user_run, Ht.
Qed.

Lemma handleEvent_image ev id w :
  type ev = type_message (image_in id) ->
  handleEvent E ev w
  = handleImage E (userId ev) (replyToken ev) id
      (mkWorld (<[userId ev := current_state w (userId ev)]> (userState w)) (trace w)).
Proof.
  intros Ht. unfold handleEvent, bind. now rewrite ensure_user_run, Ht.
Qed.

(** A handler that ends in [return reply(token, msg)] after leaving [st'] as
    the user's state. *)
Lemma reply_tail (ev : Event) (w : World) (m : gmap jsstring State) (st' : State) (msg : Message) :
  handleEvent E ev w
  = reply E (replyToken ev) msg (mkWorld (<[userId ev := st']> m) (trace w)) ->
  userState (after E ev w) !! userId ev = Some st'
  /\ replied (replyToken ev) msg (emitted E ev w).
Proof.
  intros H. unfold emitted, after. rewrite H.
  destruct (reply_run E (replyToken ev) msg
              (mkWorld (<[userId ev := st']> m) (trace w)))
    as (c & tr & Hr & Hrun & _).
  rewrite Hr; simpl. split.
  - apply lookup_insert_eq.
  - rewrite drop_app_length. now exists c.
Qed.

End Running.

(** Unfolds the handler on a world whose entry for the user is known. *)
Ltac run_handler :=
  repeat first
    [ rewrite get_state_insert
    | rewrite assign_insert
    | rewrite put_state_insert
    | rewrite faceB64_or_null_insert
    | progress (unfold bind at 1)
    | progress cbn iota beta ].

(** ** Facts about the string tests *)

Lemma startsWith_prefix p s :
  startsWith p s = true <-> exists l2, s = p ++ l2.
Proof.
  revert s. induction p as [|a p IH]; intros s; simpl.
  - split; [intros _; now exists s|reflexivity].
  - destruct s as [|b s]; simpl.
    + split; [discriminate|intros [l2 H]; discriminate].
    + rewrite andb_true_iff, N.eqb_eq, IH. split.
      * intros [-> [l2 ->]]. now exists l2.
      * intros [l2 H]. injection H as -> ->. split; [reflexivity|now exists l2].
Qed.

Lemma test_literal_infix p s :
  test_literal p s = true <-> exists l1 l2, s = l1 ++ p ++ l2.
Proof.
  induction s as [|b s IH].
  - simpl. rewrite orb_false_r, startsWith_prefix. split.
    + intros [l2 H]. now exists [], l2.
    + intros (l1 & l2 & H). destruct l1; [now exists l2|discriminate].
  - change (test_literal p (b :: s))
      with (startsWith p (b :: s) || test_literal p s).
    rewrite orb_true_iff, startsWith_prefix, IH. split.
    + intros [[l2 H]|(l1 & l2 & H)].
      * now exists [], l2.
      * exists (b :: l1), l2. now rewrite H.
    + intros (l1 & l2 & H). destruct l1 as [|c l1]; simpl in H.
      * left. now exists l2.
      * right. injection H as -> ->. now exists l1, l2.
Qed.

Lemma trimStart_keeps a p s :
  isWhiteSpace a = false ->
  test_literal (a :: p) s = true -> test_literal (a :: p) (trimStart s) = true.
Proof.
  intros Ha. induction s as [|c s IH]; [trivial|].
  intros H. simpl trimStart. destruct (isWhiteSpace c) eqn:Hc; [|exact H].
  apply IH.
  change (test_literal (a :: p) (c :: s))
    with (startsWith (a :: p) (c :: s) || test_literal (a :: p) s) in H.
  apply orb_true_iff in H. destruct H as [H|H]; [|exact H].
  simpl in H. apply andb_true_iff in H. destruct H as [H _].
  apply N.eqb_eq in H. congruence.
Qed.

Lemma test_literal_rev p s :
  test_literal p s = true -> test_literal (rev p) (rev s) = true.
Proof.
  rewrite !test_literal_infix. intros (l1 & l2 & ->).
  exists (rev l2), (rev l1). now rewrite !rev_app_distr, app_assoc.
Qed.

(** Trimming cannot remove an occurrence of a pattern that neither starts
    nor ends with white space. *)
Lemma trim_keeps p s :
  match p with [] => False | a :: _ => isWhiteSpace a = false end ->
  match rev p with [] => False | a :: _ => isWhiteSpace a = false end ->
  test_literal p s = true -> test_literal p (trim s) = true.
Proof.
  intros Hh Hl H. unfold trim, trimEnd.
  destruct p as [|a p]; [contradiction|].
  apply (trimStart_keeps a p _ Hh) in H.
  apply test_literal_rev in H.
  destruct (rev (a :: p)) as [|z q] eqn:Hq; [contradiction|].
  apply (trimStart_keeps z q _ Hl) in H.
  apply test_literal_rev in H. now rewrite <- Hq, rev_involutive in H.
Qed.

Lemma includes_false arr s a :
  includes arr s = false -> In a arr -> s <> a.
Proof.
  unfold includes. intros H Hin ->.
  assert (existsb (fun a0 => bool_decide (a0 = a)) arr = true); [|congruence].
  apply existsb_exists. exists a. split; [assumption|now apply bool_decide_eq_true_2].
Qed.

(** ** The handler, text by text *)

(** C9. In every conversation state (a new user and AWAIT_COLOR included),
    a text that is not a greeting and contains [モデル写真] sets the step to
    AWAIT_MODEL_IMAGE, leaves the other fields alone, and is answered with
    the reference-photo prompt and nothing else. *)
Theorem model_photo_text_from_any_step (E : Env) (ev : Event) (w : World)
    (t : jsstring) :
  type ev = type_message (text_in (Some t)) ->
  isGreeting (trim t) = false ->
  test_literal (js "モデル写真") t = true ->
  userState (after E ev w) !! userId ev
  = Some {| step := await_model_image;
            faceB64 := faceB64 (current_state w (userId ev));
            style := style (current_state w (userId ev));
            color := color (current_state w (userId ev));
            modelB64 := modelB64 (current_state w (userId ev)) |}
  /\ step <$> (userState (after E ev w) !! userId ev) = Some await_model_image
  /\ replied (replyToken ev) msg_send_model (emitted E ev w).
Proof.
  intros Ht Hg Hm.
  apply (trim_keeps (js "モデル写真")) in Hm; [|reflexivity|reflexivity].
  assert (Hev : handleEvent E ev w
                = reply E (replyToken ev) msg_send_model
                    (mkWorld (<[userId ev :=
                                  {| step := await_model_image;
                                     faceB64 := faceB64 (current_state w (userId ev));
                                     style := style (current_state w (userId ev));
                                     color := color (current_state w (userId ev));
                                     modelB64 := modelB64 (current_state w (userId ev)) |}]>
                                (userState w)) (trace w))).
  { rewrite (handleEvent_text E ev _ w Ht).
    unfold handleText, trimmed_text. cbv zeta. rewrite Hg.
    run_handler. now rewrite Hm; run_handler. }
  destruct (reply_tail E ev w _ _ _ Hev) as [Hst Hr].
  rewrite Hst. split; [reflexivity|]. split; [reflexivity|exact Hr].
Qed.

Lemma model_photo_text_from_any_step_witness :
  userState (after calm_env (text_event "モデル写真にしたい") no_users) !! js "U1"
  = Some {| step := await_model_image; faceB64 := null; style := null;
            color := null; modelB64 := undefined |}
  /\ step <$> (userState (after calm_env (text_event "モデル写真にしたい") no_users)
               !! js "U1") = Some await_model_image
  /\ replied (js "T1") msg_send_model
       (emitted calm_env (text_event "モデル写真にしたい") no_users).
Proof.
  apply (model_photo_text_from_any_step calm_env
           (text_event "モデル写真にしたい") no_users (js "モデル写真にしたい"));
    reflexivity.
Defined.

(** ** The generation pipeline *)

Section Pipeline.

Variable E : Env.

Lemma retry_run_completes mk tr c :
  retry_run mk tr c -> (exists r, c = Normal (Some r)) \/ (exists e, c = Throw e).
Proof. intros []; eauto. Qed.

Lemma push_failed_then (uid : jsstring) (m : gmap jsstring State) (st : State) (tr : Trace) :
  exists c trf,
    (let* _ := push E uid msg_failed in ret tt) (mkWorld (<[uid := st]> m) tr)
    = (drop_value c, mkWorld (<[uid := st]> m) (tr ++ trf))
    /\ retry_run (io_pushMessage uid msg_failed) trf c.
Proof.
  destruct (push_run E uid msg_failed (mkWorld (<[uid := st]> m) tr))
    as (c & trf & Hp & Hrun & _).
  exists c, trf. split; [|assumption].
  unfold bind. rewrite Hp. simpl.
  destruct (retry_run_completes _ _ _ Hrun) as [[r ->]|[e ->]]; reflexivity.
Qed.

Lemma generate_spec (uid : jsstring) (m : gmap jsstring State) (st : State) (tr0 : Trace) :
  exists c tr st',
    generate E uid (mkWorld (<[uid := st]> m) tr0)
    = (c, mkWorld (<[uid := st']> m) (tr0 ++ tr))
    /\ generate_run uid st tr st' c.
Proof.
  unfold generate, try_catch.
  unfold bind at 1. rewrite get_state_insert. cbn iota beta.
  unfold bind at 1. unfold callGeminiImageCompose at 1. unfold await at 1.
  cbn [trace userState].
  fold (gemini_args st).
  destruct (env_callGeminiImageCompose E tr0 (gemini_args st)) as [img|e];
    cbn iota beta.
  2:{ match goal with |- context [mkWorld _ ?t] =>
        destruct (push_failed_then uid m st t) as (c & trf & Hp & Hrun) end.
      eexists _, _, _. split; [rewrite Hp, <- ?app_assoc; reflexivity|].
      simpl. now constructor. }
  unfold bind at 1. unfold saveTempImage at 1. unfold await at 1.
  cbn [trace userState].
  match goal with |- context [env_saveTempImage E ?t img uid (js "hair")] =>
    destruct (env_saveTempImage E t img uid (js "hair")) as [url|e] end;
    cbn iota beta.
  2:{ match goal with |- context [mkWorld _ ?t] =>
        destruct (push_failed_then uid m st t) as (c & trf & Hp & Hrun) end.
      eexists _, _, _. split; [rewrite Hp, <- ?app_assoc; reflexivity|].
      simpl. now constructor. }
  unfold bind at 1.
  match goal with |- context [push E uid (image_message url url) ?w] =>
    destruct (push_run E uid (image_message url url) w)
      as (c1 & tr1 & Hp1 & Hrun1 & _) end.
  rewrite Hp1. cbn [trace userState].
  destruct (retry_run_completes _ _ _ Hrun1) as [[r1 ->]|[e ->]]; cbn iota beta.
  2:{ match goal with |- context [mkWorld _ ?t] =>
        destruct (push_failed_then uid m st t) as (c & trf & Hp & Hrun) end.
      eexists _, _, _. split; [rewrite Hp, <- ?app_assoc; reflexivity|].
      simpl. econstructor; eassumption. }
  unfold bind at 1.
  match goal with |- context [push E uid msg_done ?w] =>
    destruct (push_run E uid msg_done w) as (c2 & tr2 & Hp2 & Hrun2 & _) end.
  rewrite Hp2. cbn [trace userState].
  destruct (retry_run_completes _ _ _ Hrun2) as [[r2 ->]|[e ->]]; cbn iota beta.
  2:{ match goal with |- context [mkWorld _ ?t] =>
        destruct (push_failed_then uid m st t) as (c & trf & Hp & Hrun) end.
      eexists _, _, _. split; [rewrite Hp, <- ?app_assoc; reflexivity|].
      simpl. econstructor; eassumption. }
  run_handler.
  eexists _, _, _. split; [rewrite <- ?app_assoc; reflexivity|].
  simpl. econstructor; eassumption.
Qed.

Lemma trigger_spec (uid token : jsstring) (m : gmap jsstring State) (st : State)
    (tr0 : Trace) :
  exists c tr st',
    (reply E token msg_generating ;;; generate E uid ;;; ret None)
      (mkWorld (<[uid := st]> m) tr0)
    = (c, mkWorld (<[uid := st']> m) (tr0 ++ tr))
    /\ trigger_run uid token st tr st' c.
Proof.
  unfold bind at 1.
  destruct (reply_run E token msg_generating (mkWorld (<[uid := st]> m) tr0))
    as (c & trr & Hr & Hrun & _).
  rewrite Hr. cbn [trace userState].
  destruct (retry_run_completes _ _ _ Hrun) as [[r ->]|[e ->]]; cbn iota beta.
  - unfold bind at 1.
    destruct (generate_spec uid m st (tr0 ++ trr)) as (cg & trg & st' & Hg & Hgen).
    rewrite Hg.
    exists (match cg with Normal _ => Normal None | Throw e => Throw e end),
           (trr ++ trg), st'.
    split.
    + rewrite app_assoc. destruct cg; reflexivity.
    + econstructor; eassumption.
  - exists (Throw e), trr, st. split; [reflexivity|now constructor].
Qed.

End Pipeline.

(** ** The branches of the text handler *)

Section TextBranches.

Variable E : Env.

Lemma replied_no_gemini token m tr :
  replied token m tr -> Forall (fun x => is_gemini_call x = false) tr.
Proof. intros [c []]; repeat constructor. Qed.

Lemma replied_first token m tr :
  replied token m tr -> exists r rest, tr = io_replyMessage token m r :: rest.
Proof. intros [c []]; eauto. Qed.

(** The expression assigned to [st.color] is [color_value]. *)
Lemma picked_color txt :
  (if includes COLOR_QR txt && negb (bool_decide (txt = js "自由入力✍️"))
   then (if bool_decide (txt = js "そのまま") then [] else txt)
   else txt) = color_value txt.
Proof.
  unfold color_value. destruct (bool_decide (txt = js "そのまま")) eqn:Hk.
  - apply bool_decide_eq_true_1 in Hk. subst txt. reflexivity.
  - now destruct (includes COLOR_QR txt && _).
Qed.

(** The free-text marker. *)
Lemma handleText_free_text (uid token : jsstring) (text : option jsstring)
    (m : gmap jsstring State) (st : State) (tr : Trace) :
  trimmed_text text = js "自由入力✍️" ->
  handleText E uid token text (mkWorld (<[uid := st]> m) tr)
  = if Step_eqb (step st) await_style || negb (truthy (style st))
    then reply E token msg_type_style (mkWorld (<[uid := set_step await_style st]> m) tr)
    else reply E token msg_type_color (mkWorld (<[uid := set_step await_color st]> m) tr).
Proof.
  intros Ht. unfold handleText. cbv zeta. rewrite Ht.
  change (isGreeting (js "自由入力✍️")) with false.
  change (test_literal (js "モデル写真") (js "自由入力✍️")) with false.
  run_handler. rewrite bool_decide_eq_true_2 by reflexivity.
  destruct (Step_eqb (step st) await_style || negb (truthy (style st)));
    now run_handler.
Qed.

(** A text in step AWAIT_STYLE that is past the first three checks. *)
Lemma handleText_await_style (uid token : jsstring) (text : option jsstring)
    (m : gmap jsstring State) (st : State) (tr : Trace) :
  isGreeting (trimmed_text text) = false ->
  test_literal (js "モデル写真") (trimmed_text text) = false ->
  trimmed_text text <> js "自由入力✍️" ->
  step st = await_style ->
  handleText E uid token text (mkWorld (<[uid := st]> m) tr)
  = reply E token msg_ask_color
      (mkWorld (<[uid := set_step await_color
                           (set_style (str (trimmed_text text)) st)]> m) tr).
Proof.
  intros Hg Hm Hf Hs. unfold handleText. cbv zeta. rewrite Hg.
  run_handler. rewrite Hm. rewrite (bool_decide_eq_false_2 _ Hf). rewrite Hs.
  cbn [Step_eqb]. run_handler.
  now destruct (includes STYLE_QR (trimmed_text text) && _ && _).
Qed.

(** A text in step AWAIT_COLOR that is past the first three checks. *)
Lemma handleText_await_color (uid token : jsstring) (text : option jsstring)
    (m : gmap jsstring State) (st : State) (tr : Trace) :
  isGreeting (trimmed_text text) = false ->
  test_literal (js "モデル写真") (trimmed_text text) = false ->
  trimmed_text text <> js "自由入力✍️" ->
  step st = await_color ->
  handleText E uid token text (mkWorld (<[uid := st]> m) tr)
  = if truthy (faceB64 st)
    then (reply E token msg_generating ;;; generate E uid ;;; ret None)
           (mkWorld (<[uid := set_color (str (color_value (trimmed_text text))) st]> m) tr)
    else reply E token msg_face_first
           (mkWorld (<[uid := set_step await_face
                                (set_color (str (color_value (trimmed_text text))) st)]> m)
                    tr).
Proof.
  intros Hg Hm Hf Hs. unfold handleText. cbv zeta. rewrite Hg.
  run_handler. rewrite picked_color, Hm, (bool_decide_eq_false_2 _ Hf), Hs.
  cbn [Step_eqb]. run_handler.
  cbn [faceB64 set_color].
  destruct (truthy (faceB64 st)); cbn [negb]; now run_handler.
Qed.

(** A text that no branch takes: the last line of the handler. *)
Lemma handleText_fallthrough (uid token : jsstring) (text : option jsstring)
    (m : gmap jsstring State) (st : State) (tr : Trace) :
  isGreeting (trimmed_text text) = false ->
  test_literal (js "モデル写真") (trimmed_text text) = false ->
  trimmed_text text <> js "自由入力✍️" ->
  trimmed_text text <> js "もう一度試す" ->
  trimmed_text text <> js "髪型を変える" ->
  trimmed_text text <> js "髪色だけ変える" ->
  step st = await_face \/ step st = await_model_image ->
  handleText E uid token text (mkWorld (<[uid := st]> m) tr)
  = reply E token msg_photo_prompt (mkWorld (<[uid := st]> m) tr).
Proof.
  intros Hg Hm Hf H1 H2 H3 Hs. unfold handleText. cbv zeta. rewrite Hg.
  run_handler. rewrite Hm.
  rewrite (bool_decide_eq_false_2 _ Hf), (bool_decide_eq_false_2 _ H1),
    (bool_decide_eq_false_2 _ H2), (bool_decide_eq_false_2 _ H3).
  destruct Hs as [-> | ->]; reflexivity.
Qed.

End TextBranches.

(** ** The claims about text events *)

Section TextEvents.

Variable E : Env.

Lemma trigger_tail (ev : Event) (w : World) (m : gmap jsstring State) (st : State) :
  handleEvent E ev w
  = (reply E (replyToken ev) msg_generating ;;; generate E (userId ev) ;;; ret None)
      (mkWorld (<[userId ev := st]> m) (trace w)) ->
  exists c st',
    trigger_run (userId ev) (replyToken ev) st (emitted E ev w) st' c
    /\ userState (after E ev w) !! userId ev = Some st'
    /\ fst (handleEvent E ev w) = c.
Proof.
  intros H. unfold emitted, after. rewrite H.
  destruct (trigger_spec E (userId ev) (replyToken ev) m st (trace w))
    as (c & tr & st' & Ht & Hrun).
  rewrite Ht; simpl. exists c, st'. rewrite drop_app_length.
  split; [assumption|]. split; [apply lookup_insert_eq|reflexivity].
Qed.

Lemma trigger_run_first uid token st tr st' c :
  trigger_run uid token st tr st' c ->
  exists r rest, tr = io_replyMessage token msg_generating r :: rest.
Proof.
  intros [trr e Hr|trr r trg st2 c2 Hr Hg].
  - inversion Hr; eauto.
  - inversion Hr; subst; simpl; eauto.
Qed.

Lemma unrecognized_inv txt :
  unrecognized txt = true ->
  isGreeting txt = false
  /\ txt <> js "自由入力✍️" /\ txt <> js "もう一度試す"
  /\ txt <> js "髪型を変える" /\ txt <> js "髪色だけ変える".
Proof.
  unfold unrecognized. rewrite !andb_true_iff, !negb_true_iff.
  intros [[[Hg Hs] Hc] Hk]. split; [assumption|].
  split; [apply (includes_false STYLE_QR); [assumption|]|];
    [unfold STYLE_QR; simpl; tauto|].
  repeat split; apply (includes_false SHORTCUTS); try assumption;
    unfold SHORTCUTS; simpl; tauto.
Qed.

End TextEvents.

(** C1, as the code has it. An unrecognized text without [モデル写真] in
    it: in step AWAIT_FACE the state is left as it is (the step stays
    AWAIT_FACE) and the photo prompt is the only thing sent; in step
    AWAIT_MODEL_IMAGE the photo prompt is the only thing sent; in step
    AWAIT_STYLE the text is stored as the style, the step becomes
    AWAIT_COLOR and the color question is sent. In every state the first
    thing the handler does is a reply on the event's token, so the event is
    not dropped. *)
Theorem unrecognized_text_by_step (E : Env) (ev : Event) (w : World)
    (text : option jsstring) :
  type ev = type_message (text_in text) ->
  unrecognized (trimmed_text text) = true ->
  test_literal (js "モデル写真") (trimmed_text text) = false ->
  (step (current_state w (userId ev)) = await_face ->
     userState (after E ev w) !! userId ev = Some (current_state w (userId ev))
     /\ replied (replyToken ev) msg_photo_prompt (emitted E ev w))
  /\ (step (current_state w (userId ev)) = await_model_image ->
        replied (replyToken ev) msg_photo_prompt (emitted E ev w))
  /\ (step (current_state w (userId ev)) = await_style ->
        userState (after E ev w) !! userId ev
        = Some (set_step await_color
                  (set_style (str (trimmed_text text)) (current_state w (userId ev))))
        /\ replied (replyToken ev) msg_ask_color (emitted E ev w))
  /\ (exists m r rest, emitted E ev w = io_replyMessage (replyToken ev) m r :: rest).
Proof.
  intros Ht Hu Hm.
  destruct (unrecognized_inv _ Hu) as (Hg & Hf & H1 & H2 & H3).
  pose proof (handleEvent_text E ev text w Ht) as Hev.
  assert (Hface : step (current_state w (userId ev)) = await_face
                  \/ step (current_state w (userId ev)) = await_model_image ->
                  userState (after E ev w) !! userId ev
                  = Some (current_state w (userId ev))
                  /\ replied (replyToken ev) msg_photo_prompt (emitted E ev w)).
  { intros Hs. apply (reply_tail E ev w (userState w)).
    rewrite Hev. now apply handleText_fallthrough. }
  assert (Hstyle : step (current_state w (userId ev)) = await_style ->
                   userState (after E ev w) !! userId ev
                   = Some (set_step await_color
                             (set_style (str (trimmed_text text))
                                (current_state w (userId ev))))
                   /\ replied (replyToken ev) msg_ask_color (emitted E ev w)).
  { intros Hs. apply (reply_tail E ev w (userState w)).
    rewrite Hev. now apply handleText_await_style. }
  split; [intros Hs; apply Hface; tauto|].
  split; [intros Hs; apply Hface; tauto|].
  split; [exact Hstyle|].
  destruct (step (current_state w (userId ev))) eqn:Hs.
  - destruct Hface as [_ Hr]; [tauto|].
    destruct (replied_first _ _ _ Hr) as (r & rest & ->). eauto.
  - destruct Hstyle as [_ Hr]; [tauto|].
    destruct (replied_first _ _ _ Hr) as (r & rest & ->). eauto.
  - destruct Hface as [_ Hr]; [tauto|].
    destruct (replied_first _ _ _ Hr) as (r & rest & ->). eauto.
  - rewrite (handleText_await_color E _ _ _ _ _ _ Hg Hm Hf Hs) in Hev.
    destruct (truthy (faceB64 (current_state w (userId ev)))).
    + destruct (trigger_tail E ev w _ _ Hev) as (c & st' & Hrun & _).
      destruct (trigger_run_first _ _ _ _ _ _ Hrun) as (r & rest & ->). eauto.
    + destruct (reply_tail E ev w _ _ _ Hev) as [_ Hr].
      destruct (replied_first _ _ _ Hr) as (r & rest & ->). eauto.
Qed.

Lemma unrecognized_text_by_step_witness :
  userState (after calm_env (text_event "abc") no_users) !! js "U1" = Some fresh_state
  /\ replied (js "T1") msg_photo_prompt (emitted calm_env (text_event "abc") no_users).
Proof.
  apply (unrecognized_text_by_step calm_env (text_event "abc") no_users
           (Some (js "abc"))); reflexivity.
Defined.

(** C1 as stated fails: in step AWAIT_STYLE the unrecognized text [abc]
    becomes the style and the step becomes AWAIT_COLOR, not AWAIT_FACE. *)
Lemma unrecognized_text_counterexample :
  ~ (forall (E : Env) (ev : Event) (w : World) (text : option jsstring),
        type ev = type_message (text_in text) ->
        unrecognized (trimmed_text text) = true ->
        step <$> (userState (after E ev w) !! userId ev) = Some await_face
        /\ replied (replyToken ev) msg_photo_prompt (emitted E ev w)).
Proof.
  intros H.
  destruct (H calm_env (text_event "abc")
              (world_of {| step := await_style; faceB64 := str (js "F");
                           style := null; color := null; modelB64 := undefined |})
              (Some (js "abc")) eq_refl eq_refl) as [Hs _].
  vm_compute in Hs. discriminate.
Qed.

(** C2 fails on the code. With the step AWAIT_STYLE, which is where a
    completed cycle leaves the user and where the [もう一度試す] button is
    offered, the text [もう一度試す] is taken by the AWAIT_STYLE branch: it is
    stored as the style and the step becomes AWAIT_COLOR. The first part
    runs the handler in such a state, the second presses the button right
    after a cycle that completed. *)
Example try_again_taken_as_style :
  userState (after calm_env (text_event "もう一度試す")
               (world_of {| step := await_style; faceB64 := str (js "F");
                            style := null; color := null; modelB64 := null |}))
    !! js "U1"
  = Some {| step := await_color; faceB64 := str (js "F");
            style := str (js "もう一度試す"); color := null; modelB64 := null |}
  /\
  userState (after calm_env (text_event "もう一度試す")
               (after calm_env (text_event "黒髪")
                  (world_of {| step := await_color; faceB64 := str (js "F");
                               style := str (js "ボブ"); color := null;
                               modelB64 := null |})))
    !! js "U1"
  = Some {| step := await_color; faceB64 := str (js "F");
            style := str (js "もう一度試す"); color := null; modelB64 := null |}.
Proof. split; vm_compute; reflexivity. Qed.

(** C6, as the code has it. The free-text marker changes nothing but the
    step and is answered with one prompt: the style-entry prompt, with the
    step set to AWAIT_STYLE, when the step is AWAIT_STYLE or the style is
    absent or empty; the color-entry prompt, with the step set to
    AWAIT_COLOR, otherwise. *)
Theorem free_text_marker_prompt (E : Env) (ev : Event) (w : World)
    (text : option jsstring) :
  type ev = type_message (text_in text) ->
  trimmed_text text = js "自由入力✍️" ->
  if Step_eqb (step (current_state w (userId ev))) await_style
     || negb (truthy (style (current_state w (userId ev))))
  then userState (after E ev w) !! userId ev
       = Some (set_step await_style (current_state w (userId ev)))
       /\ replied (replyToken ev) msg_type_style (emitted E ev w)
  else userState (after E ev w) !! userId ev
       = Some (set_step await_color (current_state w (userId ev)))
       /\ replied (replyToken ev) msg_type_color (emitted E ev w).
Proof.
  intros Ht Hf.
  pose proof (handleEvent_text E ev text w Ht) as Hev.
  rewrite (handleText_free_text E _ _ _ _ _ _ Hf) in Hev.
  destruct (Step_eqb (step (current_state w (userId ev))) await_style
            || negb (truthy (style (current_state w (userId ev)))));
    now apply (reply_tail E ev w (userState w)).
Qed.

Lemma free_text_marker_prompt_witness :
  userState (after calm_env (text_event "自由入力✍️")
               (world_of {| step := await_color; faceB64 := str (js "F");
                            style := str (js "ボブ"); color := null;
                            modelB64 := null |})) !! js "U1"
  = Some {| step := await_color; faceB64 := str (js "F");
            style := str (js "ボブ"); color := null; modelB64 := null |}
  /\ replied (js "T1") msg_type_color
       (emitted calm_env (text_event "自由入力✍️")
          (world_of {| step := await_color; faceB64 := str (js "F");
                       style := str (js "ボブ"); color := null;
                       modelB64 := null |})).
Proof.
  exact (free_text_marker_prompt calm_env (text_event "自由入力✍️")
           (world_of {| step := await_color; faceB64 := str (js "F");
                        style := str (js "ボブ"); color := null; modelB64 := null |})
           (Some (js "自由入力✍️")) eq_refl eq_refl).
Defined.

(** C6 as stated fails: with a style set and the step AWAIT_STYLE the
    marker is answered with the style-entry prompt, not the color-entry
    prompt. *)
Lemma free_text_marker_counterexample :
  ~ (forall (E : Env) (ev : Event) (w : World) (text : option jsstring),
        type ev = type_message (text_in text) ->
        trimmed_text text = js "自由入力✍️" ->
        (truthy (style (current_state w (userId ev))) = false ->
           replied (replyToken ev) msg_type_style (emitted E ev w))
        /\ (truthy (style (current_state w (userId ev))) = true ->
              replied (replyToken ev) msg_type_color (emitted E ev w))).
Proof.
  intros H.
  destruct (H calm_env (text_event "自由入力✍️")
              (world_of {| step := await_style; faceB64 := str (js "F");
                           style := str (js "ボブ"); color := null;
                           modelB64 := null |})
              (Some (js "自由入力✍️")) eq_refl eq_refl) as [_ Hc].
  specialize (Hc eq_refl). destruct Hc as [c Hc].
  vm_compute in Hc. inversion Hc.
Qed.

(** C4. A text that reaches the AWAIT_COLOR branch while no selfie is
    stored sets the step to AWAIT_FACE and is answered with the prompt to
    send a selfie first; nothing else is done, so the Gemini call is not
    made. *)
Theorem trigger_without_face_redirects (E : Env) (ev : Event) (w : World)
    (text : option jsstring) :
  type ev = type_message (text_in text) ->
  isGreeting (trimmed_text text) = false ->
  test_literal (js "モデル写真") (trimmed_text text) = false ->
  trimmed_text text <> js "自由入力✍️" ->
  step (current_state w (userId ev)) = await_color ->
  truthy (faceB64 (current_state w (userId ev))) = false ->
  step <$> (userState (after E ev w) !! userId ev) = Some await_face
  /\ replied (replyToken ev) msg_face_first (emitted E ev w)
  /\ Forall (fun x => is_gemini_call x = false) (emitted E ev w).
Proof.
  intros Ht Hg Hm Hf Hs Hface.
  pose proof (handleEvent_text E ev text w Ht) as Hev.
  rewrite (handleText_await_color E _ _ _ _ _ _ Hg Hm Hf Hs), Hface in Hev.
  destruct (reply_tail E ev w _ _ _ Hev) as [Hst Hr].
  rewrite Hst. split; [reflexivity|]. split; [assumption|].
  now apply replied_no_gemini in Hr.
Qed.

Lemma trigger_without_face_redirects_witness :
  step <$> (userState (after calm_env (text_event "黒髪")
                         (world_of {| step := await_color; faceB64 := null;
                                      style := str (js "ボブ"); color := null;
                                      modelB64 := undefined |})) !! js "U1")
  = Some await_face.
Proof.
  refine (proj1 (trigger_without_face_redirects calm_env (text_event "黒髪")
                   (world_of {| step := await_color; faceB64 := null;
                                style := str (js "ボブ"); color := null;
                                modelB64 := undefined |})
                   (Some (js "黒髪")) eq_refl eq_refl eq_refl _ eq_refl eq_refl)).
  vm_compute. discriminate.
Defined.



(** ** Image events *)

Section ImageEvents.

Variable E : Env.

(** The image branch once the download and sharp have succeeded. *)
Lemma handleImage_fetched (uid token id : jsstring) (buf pre : Buffer)
    (m : gmap jsstring State) (st : State) (tr : Trace) :
  env_getImageBuffer E tr id = resolved buf ->
  env_preprocessImage E (tr ++ [io_getImageBuffer id (resolved buf)]) buf
  = resolved pre ->
  handleImage E uid token id (mkWorld (<[uid := st]> m) tr)
  = let b64 := str (toString_base64 E pre) in
    let tr' := tr ++ [io_getImageBuffer id (resolved buf);
                      io_preprocessImage buf (resolved pre)] in
    if Step_eqb (step st) await_face || negb (truthy (faceB64 st))
    then reply E token msg_face_received
           (mkWorld (<[uid := set_step await_style (set_faceB64 b64 st)]> m) tr')
    else if Step_eqb (step st) await_model_image
    then reply E token msg_model_received
           (mkWorld (<[uid := set_step await_color (set_modelB64 b64 st)]> m) tr')
    else reply E token msg_face_updated
           (mkWorld (<[uid := set_step await_style (set_faceB64 b64 st)]> m) tr').
Proof.
  intros Hb Hp. unfold handleImage.
  unfold bind at 1. unfold getImageBuffer, await. cbn [trace userState].
  rewrite Hb. cbn iota beta.
  unfold bind at 1. unfold preprocessImage, await. cbn [trace userState].
  rewrite Hp. cbn iota beta zeta. rewrite <- app_assoc. cbn [app].
  run_handler.
  destruct (Step_eqb (step st) await_face || negb (truthy (faceB64 st)));
    [now run_handler|].
  destruct (Step_eqb (step st) await_model_image); now run_handler.
Qed.

(** A handler that ends in [return reply(token, msg)] after the calls [pre]. *)
Lemma reply_tail_after (ev : Event) (w : World) (m : gmap jsstring State)
    (st' : State) (msg : Message) (pre : Trace) :
  handleEvent E ev w
  = reply E (replyToken ev) msg (mkWorld (<[userId ev := st']> m) (trace w ++ pre)) ->
  userState (after E ev w) !! userId ev = Some st'
  /\ exists tr, emitted E ev w = pre ++ tr /\ replied (replyToken ev) msg tr.
Proof.
  intros H. unfold emitted, after. rewrite H.
  destruct (reply_run E (replyToken ev) msg
              (mkWorld (<[userId ev := st']> m) (trace w ++ pre)))
    as (c & tr & Hr & Hrun & _).
  rewrite Hr; simpl. split.
  - apply lookup_insert_eq.
  - exists tr. rewrite <- app_assoc, drop_app_length. split; [reflexivity|now exists c].
Qed.

Lemma image_replaces_face (ev : Event) (w : World) (id : jsstring) (buf pre : Buffer) :
  type ev = type_message (image_in id) ->
  step (current_state w (userId ev)) = await_style ->
  env_getImageBuffer E (trace w) id = resolved buf ->
  env_preprocessImage E (trace w ++ [io_getImageBuffer id (resolved buf)]) buf
  = resolved pre ->
  userState (after E ev w) !! userId ev
  = Some (set_step await_style
            (set_faceB64 (str (toString_base64 E pre)) (current_state w (userId ev))))
  /\ exists tr,
       emitted E ev w
       = [io_getImageBuffer id (resolved buf); io_preprocessImage buf (resolved pre)]
         ++ tr
       /\ (if truthy (faceB64 (current_state w (userId ev)))
           then replied (replyToken ev) msg_face_updated tr
           else replied (replyToken ev) msg_face_received tr).
Proof.
  intros Ht Hs Hb Hp.
  pose proof (handleEvent_image E ev id w Ht) as Hev.
  rewrite (handleImage_fetched _ _ _ buf pre _ _ _ Hb Hp) in Hev.
  rewrite Hs in Hev. cbv zeta in Hev. cbn [Step_eqb orb] in Hev.
  destruct (truthy (faceB64 (current_state w (userId ev)))); cbn [negb] in Hev;
    now apply reply_tail_after in Hev.
Qed.

End ImageEvents.

(** C7. With the step AWAIT_STYLE and a selfie stored, an image whose
    download and preprocessing succeed replaces [faceB64] with the new
    base64 text and leaves the step AWAIT_STYLE and the other fields as
    they were; the reply is the "selfie updated" message. Handling the same
    image once more (the download and sharp yield the same base64 text)
    leaves the state as the first handling left it. *)
Theorem resend_image_in_await_style (E : Env) (ev : Event) (w : World)
    (id : jsstring) (buf pre : Buffer) :
  type ev = type_message (image_in id) ->
  step (current_state w (userId ev)) = await_style ->
  truthy (faceB64 (current_state w (userId ev))) = true ->
  env_getImageBuffer E (trace w) id = resolved buf ->
  env_preprocessImage E (trace w ++ [io_getImageBuffer id (resolved buf)]) buf
  = resolved pre ->
  userState (after E ev w) !! userId ev
  = Some (set_step await_style
            (set_faceB64 (str (toString_base64 E pre)) (current_state w (userId ev))))
  /\ step <$> (userState (after E ev w) !! userId ev) = Some await_style
  /\ faceB64 <$> (userState (after E ev w) !! userId ev)
     = Some (str (toString_base64 E pre))
  /\ (exists tr,
        emitted E ev w
        = [io_getImageBuffer id (resolved buf); io_preprocessImage buf (resolved pre)]
          ++ tr
        /\ replied (replyToken ev) msg_face_updated tr)
  /\ (forall buf2 pre2 : Buffer,
        env_getImageBuffer E (trace (after E ev w)) id = resolved buf2 ->
        env_preprocessImage E
          (trace (after E ev w) ++ [io_getImageBuffer id (resolved buf2)]) buf2
        = resolved pre2 ->
        toString_base64 E pre2 = toString_base64 E pre ->
        userState (after E ev (after E ev w)) !! userId ev
        = userState (after E ev w) !! userId ev).
Proof.
  intros Ht Hs Hface Hb Hp.
  destruct (image_replaces_face E ev w id buf pre Ht Hs Hb Hp) as [Hst Hem].
  rewrite Hface in Hem.
  split; [assumption|]. rewrite Hst.
  split; [reflexivity|]. split; [reflexivity|]. split; [assumption|].
  intros buf2 pre2 Hb2 Hp2 Hsame.
  assert (Hcur : current_state (after E ev w) (userId ev)
                 = set_step await_style
                     (set_faceB64 (str (toString_base64 E pre))
                        (current_state w (userId ev)))).
  { unfold current_state at 1. now rewrite Hst. }
  destruct (image_replaces_face E ev (after E ev w) id buf2 pre2 Ht) as [Hst2 _];
    [now rewrite Hcur|assumption|assumption|].
  rewrite Hst2, Hcur, Hsame. reflexivity.
Qed.

Lemma resend_image_in_await_style_witness :
  userState (after calm_env (image_event "m2")
               (world_of {| step := await_style; faceB64 := str (js "F");
                            style := null; color := null; modelB64 := undefined |}))
    !! js "U1"
  = Some {| step := await_style; faceB64 := str (js "m2");
            style := null; color := null; modelB64 := undefined |}.
Proof.
  exact (proj1 (resend_image_in_await_style calm_env (image_event "m2")
                  (world_of {| step := await_style; faceB64 := str (js "F");
                               style := null; color := null; modelB64 := undefined |})
                  (js "m2") (js "m2") (js "m2")
                  eq_refl eq_refl eq_refl eq_refl eq_refl)).
Defined.

(** ** The pipeline, seen from the handler *)

Lemma retry_run_In mk tr c x :
  retry_run mk tr c -> In x tr -> (exists o, x = mk o) \/ (exists ms, x = io_sleep ms).
Proof.
  intros H Hin. destruct H; simpl in Hin;
    repeat (destruct Hin as [<-|Hin]; [eauto|]); contradiction.
Qed.

Lemma delivered_app tr1 tr2 : delivered (tr1 ++ tr2) = delivered tr1 ++ delivered tr2.
Proof. apply omap_app. Qed.

Lemma delivered_push uid msg tr c :
  retry_run (io_pushMessage uid msg) tr c ->
  delivered tr = match c with Normal _ => [msg] | Throw _ => [] end.
Proof. intros []; reflexivity. Qed.

Lemma delivered_reply token msg tr c :
  retry_run (io_replyMessage token msg) tr c ->
  delivered tr = match c with Normal _ => [msg] | Throw _ => [] end.
Proof. intros []; reflexivity. Qed.

Lemma delivered_gemini a r tr :
  delivered (io_callGeminiImageCompose a r :: tr) = delivered tr.
Proof. reflexivity. Qed.

Lemma delivered_save b u p r tr :
  delivered (io_saveTempImage b u p r :: tr) = delivered tr.
Proof. reflexivity. Qed.

(** The completion message is delivered only by a pipeline that ran to its
    end. *)
Lemma generate_run_done uid st tr st' c :
  generate_run uid st tr st' c ->
  In msg_done (delivered tr) ->
  st' = cycle_done st /\ c = Normal tt.
Proof.
  intros H Hin.
  destruct H as [img url tr1 r1 tr2 r2 H1 H2
                |e trf c Hf
                |img e trf c Hf
                |img url tr1 e trf c H1 Hf
                |img url tr1 r1 tr2 e trf c H1 H2 Hf];
    [split; reflexivity|..];
    exfalso;
    rewrite ?delivered_gemini, ?delivered_save, ?delivered_app in Hin;
    try rewrite (delivered_push _ _ _ _ H1) in Hin;
    try rewrite (delivered_push _ _ _ _ H2) in Hin;
    rewrite (delivered_push _ _ _ _ Hf) in Hin;
    destruct c; simpl in Hin; intuition discriminate.
Qed.

(** A rejected Gemini call is followed by one push of the apology and
    leaves the state alone. *)
Lemma generate_run_rejected uid st tr st' c a e :
  generate_run uid st tr st' c ->
  In (io_callGeminiImageCompose a (rejected e)) tr ->
  st' = st
  /\ exists trf cf,
       tr = io_callGeminiImageCompose (gemini_args st) (rejected e) :: trf
       /\ retry_run (io_pushMessage uid msg_failed) trf cf
       /\ c = drop_value cf.
Proof.
  intros H Hin.
  assert (Hno : forall mk t cc, retry_run mk t cc ->
                  (forall o, mk o <> io_callGeminiImageCompose a (rejected e)) ->
                  ~ In (io_callGeminiImageCompose a (rejected e)) t).
  { intros mk t cc Hr Hmk Hi. destruct (retry_run_In _ _ _ _ Hr Hi) as [[o Ho]|[ms Ho]].
    - now apply (Hmk o).
    - discriminate. }
  destruct H as [img url tr1 r1 tr2 r2 H1 H2
                |e' trf c Hf
                |img e' trf c Hf
                |img url tr1 e' trf c H1 Hf
                |img url tr1 r1 tr2 e' trf c H1 H2 Hf].
  2:{ split; [reflexivity|]. destruct Hin as [Heq|Hin].
      - injection Heq as _ <-. eauto.
      - exfalso. now apply (Hno _ _ _ Hf) in Hin. }
  all: exfalso; simpl in Hin; destruct Hin as [Heq|[Heq|Hin]]; try discriminate;
    rewrite ?in_app_iff in Hin;
    repeat match goal with
           | H : _ \/ _ |- _ => destruct H
           | Hr : retry_run _ ?t _, Hi : In _ ?t |- _ =>
               now apply (Hno _ _ _ Hr) in Hi
           end.
Qed.

Lemma trigger_run_done uid token st tr st' c :
  trigger_run uid token st tr st' c ->
  In msg_done (delivered tr) ->
  st' = cycle_done st.
Proof.
  intros [trr e Hr|trr r trg st2 c2 Hr Hg] Hin.
  - rewrite (delivered_reply _ _ _ _ Hr) in Hin. contradiction.
  - rewrite delivered_app, (delivered_reply _ _ _ _ Hr) in Hin.
    destruct Hin as [Heq|Hin]; [discriminate|].
    now apply (generate_run_done _ _ _ _ _ Hg).
Qed.

Lemma trigger_run_rejected uid token st tr st' c a e :
  trigger_run uid token st tr st' c ->
  In (io_callGeminiImageCompose a (rejected e)) tr ->
  st' = st
  /\ exists trr r trf cf,
       tr = trr ++ io_callGeminiImageCompose (gemini_args st) (rejected e) :: trf
       /\ retry_run (io_replyMessage token msg_generating) trr (Normal r)
       /\ retry_run (io_pushMessage uid msg_failed) trf cf
       /\ c = match cf with Normal _ => Normal None | Throw e' => Throw e' end.
Proof.
  intros [trr e' Hr|trr r trg st2 c2 Hr Hg] Hin.
  - exfalso. destruct (retry_run_In _ _ _ _ Hr Hin) as [[o Ho]|[ms Ho]]; discriminate.
  - apply in_app_iff in Hin. destruct Hin as [Hin|Hin].
    + exfalso.
      destruct (retry_run_In _ _ _ _ Hr Hin) as [[o Ho]|[ms Ho]]; discriminate.
    + destruct (generate_run_rejected _ _ _ _ _ _ _ Hg Hin)
        as (-> & trf & cf & -> & Hf & ->).
      split; [reflexivity|]. exists trr, r, trf, cf.
      repeat split; try assumption. now destruct cf.
Qed.

(** C3, as the code has it. After a cycle that ran to its end (the
    completion message was delivered, so the Gemini call, the file store and
    the image push succeeded before it) the state keeps [faceB64] and
    [style] as they were, has [modelB64] and [color] reset to [null], and
    the step is AWAIT_STYLE. *)
Theorem completed_cycle_state (E : Env) (ev : Event) (w : World)
    (text : option jsstring) :
  type ev = type_message (text_in text) ->
  isGreeting (trimmed_text text) = false ->
  test_literal (js "モデル写真") (trimmed_text text) = false ->
  trimmed_text text <> js "自由入力✍️" ->
  step (current_state w (userId ev)) = await_color ->
  truthy (faceB64 (current_state w (userId ev))) = true ->
  In msg_done (delivered (emitted E ev w)) ->
  userState (after E ev w) !! userId ev
  = Some {| step := await_style;
            faceB64 := faceB64 (current_state w (userId ev));
            style := style (current_state w (userId ev));
            color := null;
            modelB64 := null |}.
Proof.
  intros Ht Hg Hm Hf Hs Hface Hdone.
  pose proof (handleEvent_text E ev text w Ht) as Hev.
  rewrite (handleText_await_color E _ _ _ _ _ _ Hg Hm Hf Hs), Hface in Hev.
  destruct (trigger_tail E ev w _ _ Hev) as (c & st' & Hrun & Hst & _).
  rewrite Hst, (trigger_run_done _ _ _ _ _ _ Hrun Hdone). reflexivity.
Qed.

Lemma completed_cycle_state_witness :
  userState (after calm_env (text_event "黒髪")
               (world_of {| step := await_color; faceB64 := str (js "F");
                            style := str (js "ボブ"); color := null;
                            modelB64 := str (js "R") |})) !! js "U1"
  = Some {| step := await_style; faceB64 := str (js "F");
            style := str (js "ボブ"); color := null; modelB64 := null |}.
Proof.
  refine (completed_cycle_state calm_env (text_event "黒髪")
            (world_of {| step := await_color; faceB64 := str (js "F");
                         style := str (js "ボブ"); color := null;
                         modelB64 := str (js "R") |})
            (Some (js "黒髪")) eq_refl eq_refl eq_refl _ eq_refl eq_refl _).
  - vm_compute. discriminate.
  - vm_compute. right; right; left; reflexivity.
Defined.

(** C3 as stated fails: after a cycle in which the Gemini call (and all
    the rest) succeeded, the style [ボブ] is still in the state. *)
Lemma completed_cycle_counterexample :
  ~ (forall (E : Env) (ev : Event) (w : World) (text : option jsstring),
        type ev = type_message (text_in text) ->
        isGreeting (trimmed_text text) = false ->
        test_literal (js "モデル写真") (trimmed_text text) = false ->
        trimmed_text text <> js "自由入力✍️" ->
        step (current_state w (userId ev)) = await_color ->
        truthy (faceB64 (current_state w (userId ev))) = true ->
        (exists a img, In (io_callGeminiImageCompose a (resolved img)) (emitted E ev w)) ->
        userState (after E ev w) !! userId ev
        = Some {| step := await_style;
                  faceB64 := faceB64 (current_state w (userId ev));
                  style := null;
                  color := null;
                  modelB64 := null |}).
Proof.
  intros H.
  specialize (H calm_env (text_event "黒髪")
                (world_of {| step := await_color; faceB64 := str (js "F");
                             style := str (js "ボブ"); color := null;
                             modelB64 := str (js "R") |})
                (Some (js "黒髪")) eq_refl eq_refl eq_refl).
  assert (Hne : trimmed_text (Some (js "黒髪")) <> js "自由入力✍️")
    by (vm_compute; discriminate).
  specialize (H Hne eq_refl eq_refl).
  assert (Hgem : exists a img,
             In (io_callGeminiImageCompose a (resolved img))
                (emitted calm_env (text_event "黒髪")
                   (world_of {| step := await_color; faceB64 := str (js "F");
                                style := str (js "ボブ"); color := null;
                                modelB64 := str (js "R") |}))).
  { eexists _, _. vm_compute. right; left; reflexivity. }
  specialize (H Hgem). vm_compute in H. discriminate.
Qed.

(** C5. When the pipeline was triggered and the Gemini call is rejected,
    the state stays as it stood at the trigger: the color just set, the
    style, and the step AWAIT_COLOR. After the "generating" reply the
    handler does one thing only, one push of the apology, so what reaches
    the user is that reply and the apology (the apology once, or not at all
    when each of the three delivery attempts is rejected, in which case the
    handler throws). Any further text that reaches the AWAIT_COLOR branch
    triggers the pipeline again. *)
Theorem generation_failure_keeps_state (E : Env) (ev : Event) (w : World)
    (text : option jsstring) (a : GeminiArgs) (e : JsError) :
  type ev = type_message (text_in text) ->
  isGreeting (trimmed_text text) = false ->
  test_literal (js "モデル写真") (trimmed_text text) = false ->
  trimmed_text text <> js "自由入力✍️" ->
  step (current_state w (userId ev)) = await_color ->
  truthy (faceB64 (current_state w (userId ev))) = true ->
  In (io_callGeminiImageCompose a (rejected e)) (emitted E ev w) ->
  userState (after E ev w) !! userId ev
  = Some {| step := await_color;
            faceB64 := faceB64 (current_state w (userId ev));
            style := style (current_state w (userId ev));
            color := str (color_value (trimmed_text text));
            modelB64 := modelB64 (current_state w (userId ev)) |}
  /\ (exists trr r trf cf,
        emitted E ev w = trr ++ io_callGeminiImageCompose a (rejected e) :: trf
        /\ retry_run (io_replyMessage (replyToken ev) msg_generating) trr (Normal r)
        /\ retry_run (io_pushMessage (userId ev) msg_failed) trf cf
        /\ delivered (emitted E ev w)
           = msg_generating :: match cf with Normal _ => [msg_failed] | Throw _ => [] end
        /\ fst (handleEvent E ev w)
           = match cf with Normal _ => Normal None | Throw e' => Throw e' end)
  /\ (forall (ev2 : Event) (text2 : option jsstring),
        userId ev2 = userId ev ->
        type ev2 = type_message (text_in text2) ->
        isGreeting (trimmed_text text2) = false ->
        test_literal (js "モデル写真") (trimmed_text text2) = false ->
        trimmed_text text2 <> js "自由入力✍️" ->
        exists c st',
          trigger_run (userId ev) (replyToken ev2)
            {| step := await_color;
               faceB64 := faceB64 (current_state w (userId ev));
               style := style (current_state w (userId ev));
               color := str (color_value (trimmed_text text2));
               modelB64 := modelB64 (current_state w (userId ev)) |}
            (emitted E ev2 (after E ev w)) st' c).
Proof.
  intros Ht Hg Hm Hf Hs Hface Hrej.
  pose proof (handleEvent_text E ev text w Ht) as Hev.
  rewrite (handleText_await_color E _ _ _ _ _ _ Hg Hm Hf Hs), Hface in Hev.
  destruct (trigger_tail E ev w _ _ Hev) as (c & st' & Hrun & Hst & Hc).
  destruct (trigger_run_rejected _ _ _ _ _ _ _ _ Hrun Hrej)
    as (-> & trr & r & trf & cf & Hem & Hr & Hp & ->).
  assert (Hst1 : userState (after E ev w) !! userId ev
                 = Some {| step := await_color;
                           faceB64 := faceB64 (current_state w (userId ev));
                           style := style (current_state w (userId ev));
                           color := str (color_value (trimmed_text text));
                           modelB64 := modelB64 (current_state w (userId ev)) |}).
  { rewrite Hst. unfold set_color. now rewrite Hs. }
  split; [exact Hst1|]. split.
  - exists trr, r, trf, cf.
    assert (Ha : a = gemini_args
                       (set_color (str (color_value (trimmed_text text)))
                          (current_state w (userId ev)))).
    { rewrite Hem in Hrej. apply in_app_iff in Hrej. destruct Hrej as [Hi|[Hi|Hi]].
      - destruct (retry_run_In _ _ _ _ Hr Hi) as [[o Ho]|[ms Ho]]; discriminate.
      - now injection Hi.
      - destruct (retry_run_In _ _ _ _ Hp Hi) as [[o Ho]|[ms Ho]]; discriminate. }
    rewrite Ha. split; [assumption|]. split; [assumption|]. split; [assumption|].
    split; [|assumption].
    rewrite Hem, delivered_app, delivered_gemini,
      (delivered_reply _ _ _ _ Hr), (delivered_push _ _ _ _ Hp).
    reflexivity.
  - intros ev2 text2 Hu Ht2 Hg2 Hm2 Hf2.
    pose proof (handleEvent_text E ev2 text2 (after E ev w) Ht2) as Hev2.
    assert (Hcur : current_state (after E ev w) (userId ev2)
                   = {| step := await_color;
                        faceB64 := faceB64 (current_state w (userId ev));
                        style := style (current_state w (userId ev));
                        color := str (color_value (trimmed_text text));
                        modelB64 := modelB64 (current_state w (userId ev)) |}).
    { unfold current_state at 1. now rewrite Hu, Hst1. }
    rewrite Hcur in Hev2.
    rewrite handleText_await_color in Hev2;
      [|assumption|assumption|assumption|reflexivity].
    cbn [faceB64] in Hev2. rewrite Hface in Hev2.
    destruct (trigger_tail E ev2 (after E ev w) _ _ Hev2) as (c2 & st2 & Hrun2 & _).
    rewrite Hu in Hrun2. exists c2, st2. exact Hrun2.
Qed.

Lemma generation_failure_keeps_state_witness :
  userState (after gemini_down_env (text_event "そのまま")
               (world_of {| step := await_color; faceB64 := str (js "F");
                            style := str (js "ボブ"); color := null;
                            modelB64 := undefined |})) !! js "U1"
  = Some {| step := await_color; faceB64 := str (js "F");
            style := str (js "ボブ"); color := str [];
            modelB64 := undefined |}.
Proof.
  refine (proj1 (generation_failure_keeps_state gemini_down_env (text_event "そのまま")
                   (world_of {| step := await_color; faceB64 := str (js "F");
                                style := str (js "ボブ"); color := null;
                                modelB64 := undefined |})
                   (Some (js "そのまま"))
                   (gemini_args {| step := await_color; faceB64 := str (js "F");
                                   style := str (js "ボブ"); color := str [];
                                   modelB64 := undefined |})
                   (Error "Gemini API error 500")
                   eq_refl eq_refl eq_refl _ eq_refl eq_refl _)).
  - vm_compute. discriminate.
  - vm_compute. right; left; reflexivity.
Defined.

(** * More of the handler *)

(** ** Every run of [handleEvent] *)

Section EveryRun.

Variable E : Env.

(** The text branch ends in one reply, or in the pipeline. *)
Lemma handleText_cases (uid token : jsstring) (text : option jsstring)
    (m : gmap jsstring State) (st : State) (tr : Trace) :
  (exists msg st',
      handleText E uid token text (mkWorld (<[uid := st]> m) tr)
      = reply E token msg (mkWorld (<[uid := st']> m) tr))
  \/ (step st = await_color /\ truthy (faceB64 st) = true
      /\ handleText E uid token text (mkWorld (<[uid := st]> m) tr)
         = (reply E token msg_generating ;;; generate E uid ;;; ret None)
             (mkWorld (<[uid := set_color (str (color_value (trimmed_text text))) st]> m)
                      tr)).
Proof.
  unfold handleText. cbv zeta.
  destruct (isGreeting (trimmed_text text)).
  { left. eexists _, _. run_handler. reflexivity. }
  run_handler. rewrite picked_color.
  destruct (test_literal (js "モデル写真") (trimmed_text text)).
  { left. eexists _, _. run_handler. reflexivity. }
  destruct (bool_decide (trimmed_text text = js "自由入力✍️")).
  { destruct (Step_eqb (step st) await_style || negb (truthy (style st)));
      left; eexists _, _; run_handler; reflexivity. }
  destruct (step st) eqn:Hs; cbn [Step_eqb].
  2:{ left. eexists _, _. run_handler. reflexivity. }
  3:{ run_handler. cbn [faceB64 set_color].
      destruct (truthy (faceB64 st)) eqn:Hf; cbn [negb].
      - right. split; [reflexivity|]. split; [reflexivity|].
        run_handler. reflexivity.
      - left. eexists _, _. run_handler. reflexivity. }
  all: destruct (bool_decide (trimmed_text text = js "もう一度試す"));
    [left; eexists _, _; run_handler; reflexivity|];
    destruct (bool_decide (trimmed_text text = js "髪型を変える"));
    [left; eexists _, _; run_handler; reflexivity|];
    destruct (bool_decide (trimmed_text text = js "髪色だけ変える"));
    left; eexists _, _; run_handler; reflexivity.
Qed.

Lemma handleImage_download_failed (uid token id : jsstring) (e : JsError)
    (m : gmap jsstring State) (st : State) (tr : Trace) :
  env_getImageBuffer E tr id = rejected e ->
  handleImage E uid token id (mkWorld (<[uid := st]> m) tr)
  = (Throw e, mkWorld (<[uid := st]> m) (tr ++ [io_getImageBuffer id (rejected e)])).
Proof.
  intros H. unfold handleImage. unfold bind at 1. unfold getImageBuffer, await.
  cbn [trace userState]. now rewrite H.
Qed.

Lemma handleImage_sharp_failed (uid token id : jsstring) (buf : Buffer) (e : JsError)
    (m : gmap jsstring State) (st : State) (tr : Trace) :
  env_getImageBuffer E tr id = resolved buf ->
  env_preprocessImage E (tr ++ [io_getImageBuffer id (resolved buf)]) buf
  = rejected e ->
  handleImage E uid token id (mkWorld (<[uid := st]> m) tr)
  = (Throw e, mkWorld (<[uid := st]> m)
                (tr ++ [io_getImageBuffer id (resolved buf);
                        io_preprocessImage buf (rejected e)])).
Proof.
  intros Hb Hp. unfold handleImage. unfold bind at 1. unfold getImageBuffer, await.
  cbn [trace userState]. rewrite Hb. cbn iota beta.
  unfold bind at 1. unfold preprocessImage, await. cbn [trace userState].
  rewrite Hp. now rewrite <- app_assoc.
Qed.

(** Whatever the event and the environment, the handler goes one of the
    ways of [event_run], touching the entry of the sender only. *)
Lemma handleEvent_run (ev : Event) (w : World) :
  exists c tr st',
    handleEvent E ev w
    = (c, mkWorld (<[userId ev := st']> (userState w)) (trace w ++ tr))
    /\ event_run (userId ev) (replyToken ev) (current_state w (userId ev)) tr st' c.
Proof.
  destruct (type ev) as [[id|text|]|] eqn:Ht.
  - rewrite (handleEvent_image E ev id w Ht).
    destruct (env_getImageBuffer E (trace w) id) as [buf|e] eqn:Hb.
    2:{ rewrite (handleImage_download_failed _ _ _ e _ _ _ Hb).
        eexists _, _, _. split; [reflexivity|constructor]. }
    destruct (env_preprocessImage E (trace w ++ [io_getImageBuffer id (resolved buf)]) buf)
      as [pre|e] eqn:Hp.
    2:{ rewrite (handleImage_sharp_failed _ _ _ buf e _ _ _ Hb Hp).
        eexists _, _, _. split; [reflexivity|constructor]. }
    rewrite (handleImage_fetched E _ _ _ buf pre _ _ _ Hb Hp). cbv zeta.
    destruct (Step_eqb (step (current_state w (userId ev))) await_face
              || negb (truthy (faceB64 (current_state w (userId ev)))));
      [|destruct (Step_eqb (step (current_state w (userId ev))) await_model_image)].
    all: match goal with |- context [reply E ?t ?msg ?w0] =>
           destruct (reply_run E t msg w0) as (c & tr & Hr & Hrun & _) end;
      rewrite Hr; cbn [trace userState];
      eexists c, _, _; (split; [rewrite <- app_assoc; reflexivity|]);
      eapply (run_replied _ _ _ [_; _] _ _ tr c); [constructor|eassumption].
  - rewrite (handleEvent_text E ev text w Ht).
    destruct (handleText_cases (userId ev) (replyToken ev) text (userState w)
                (current_state w (userId ev)) (trace w))
      as [(msg & st' & ->)|(Hs & Hf & ->)].
    + destruct (reply_run E (replyToken ev) msg
                  (mkWorld (<[userId ev := st']> (userState w)) (trace w)))
        as (c & tr & Hr & Hrun & _).
      rewrite Hr; cbn [trace userState]. exists c, tr, st'.
      split; [reflexivity|].
      apply (run_replied _ _ _ [] msg st' tr c); [constructor|assumption].
    + destruct (trigger_spec E (userId ev) (replyToken ev) (userState w)
                  (set_color (str (color_value (trimmed_text text)))
                     (current_state w (userId ev))) (trace w))
        as (c & tr & st' & Hr & Hrun).
      rewrite Hr. exists c, tr, st'. split; [reflexivity|].
      now apply (run_triggered _ _ _ (trimmed_text text)).
  - unfold handleEvent, bind. rewrite ensure_user_run, Ht.
    exists (Normal None), [], (current_state w (userId ev)).
    rewrite app_nil_r. split; [reflexivity|constructor].
  - unfold handleEvent, bind. rewrite ensure_user_run, Ht.
    exists (Normal None), [], (current_state w (userId ev)).
    rewrite app_nil_r. split; [reflexivity|constructor].
Qed.

(** The same, read through [after] and [emitted]. *)
Lemma handleEvent_run_after (ev : Event) (w : World) :
  exists c st',
    event_run (userId ev) (replyToken ev) (current_state w (userId ev))
      (emitted E ev w) st' c
    /\ fst (handleEvent E ev w) = c
    /\ userState (after E ev w) = <[userId ev := st']> (userState w)
    /\ trace (after E ev w) = trace w ++ emitted E ev w.
Proof.
  destruct (handleEvent_run ev w) as (c & tr & st' & H & Hrun).
  unfold emitted, after. rewrite H. cbn [fst snd trace userState].
  rewrite drop_app_length. now exists c, st'.
Qed.

End EveryRun.

(** ** Reading the runs *)

Lemma retry_run_Forall (P : IO -> Prop) mk tr c :
  (forall o, P (mk o)) -> (forall ms, P (io_sleep ms)) ->
  retry_run mk tr c -> Forall P tr.
Proof. intros Hmk Hs []; repeat constructor; auto. Qed.

Lemma retry_run_omap_nil {B} (f : IO -> option B) mk tr c :
  (forall o, f (mk o) = None) -> (forall ms, f (io_sleep ms) = None) ->
  retry_run mk tr c -> omap f tr = [].
Proof. intros Hmk Hs []; simpl; now rewrite ?Hmk, ?Hs. Qed.

Lemma retry_run_throw_last mk tr e :
  retry_run mk tr (Throw e) -> exists pre, tr = pre ++ [mk (rejected e)].
Proof.
  intros H. inversion H; subst.
  now exists [mk (rejected e0); io_sleep 250; mk (rejected e1); io_sleep 500].
Qed.

Lemma generate_run_Forall (P : IO -> Prop) uid st tr st' c :
  (forall r, P (io_callGeminiImageCompose (gemini_args st) r)) ->
  (forall b r, P (io_saveTempImage b uid (js "hair") r)) ->
  (forall m o, m = msg_failed \/ m = msg_done \/ (exists url, m = image_message url url) ->
               P (io_pushMessage uid m o)) ->
  (forall ms, P (io_sleep ms)) ->
  generate_run uid st tr st' c -> Forall P tr.
Proof.
  intros Hg Hsv Hp Hs H.
  assert (Hpush : forall m t cc,
             m = msg_failed \/ m = msg_done \/ (exists url, m = image_message url url) ->
             retry_run (io_pushMessage uid m) t cc -> Forall P t).
  { intros m t cc Hm Hr. apply (retry_run_Forall P _ _ _ (fun o => Hp m o Hm) Hs Hr). }
  destruct H; repeat first [apply Forall_cons; split | apply Forall_app; split];
    try apply Hg; try apply Hsv;
    (eapply Hpush; [|eassumption]); eauto.
Qed.

Lemma trigger_run_Forall (P : IO -> Prop) uid token st tr st' c :
  (forall o, P (io_replyMessage token msg_generating o)) ->
  (forall r, P (io_callGeminiImageCompose (gemini_args st) r)) ->
  (forall b r, P (io_saveTempImage b uid (js "hair") r)) ->
  (forall m o, m = msg_failed \/ m = msg_done \/ (exists url, m = image_message url url) ->
               P (io_pushMessage uid m o)) ->
  (forall ms, P (io_sleep ms)) ->
  trigger_run uid token st tr st' c -> Forall P tr.
Proof.
  intros Hr Hg Hsv Hp Hs [trr e H|trr r trg st2 c2 H Hgen].
  - apply (retry_run_Forall P _ _ _ Hr Hs H).
  - apply Forall_app. split.
    + apply (retry_run_Forall P _ _ _ Hr Hs H).
    + now apply (generate_run_Forall P uid st trg st2 c2).
Qed.

Lemma event_run_Forall (P : IO -> Prop) uid token st tr st' c :
  (forall id r, P (io_getImageBuffer id r)) ->
  (forall buf r, P (io_preprocessImage buf r)) ->
  (forall m o, P (io_replyMessage token m o)) ->
  (step st = await_color -> truthy (faceB64 st) = true ->
   forall txt r,
     P (io_callGeminiImageCompose (gemini_args (set_color (str (color_value txt)) st)) r)) ->
  (forall b r, P (io_saveTempImage b uid (js "hair") r)) ->
  (forall m o, m = msg_failed \/ m = msg_done \/ (exists url, m = image_message url url) ->
               P (io_pushMessage uid m o)) ->
  (forall ms, P (io_sleep ms)) ->
  event_run uid token st tr st' c -> Forall P tr.
Proof.
  intros Hget Hpre Hr Hg Hsv Hp Hs H.
  destruct H as [|id e|id buf e|pre msg st2 tr c Hf Hrun|txt tr st2 c Hstep Hface Hrun].
  - constructor.
  - repeat constructor; auto.
  - repeat constructor; auto.
  - apply Forall_app. split.
    + destruct Hf; repeat constructor; auto.
    + apply (retry_run_Forall P _ _ _ (Hr msg) Hs Hrun).
  - eapply trigger_run_Forall; eauto.
Qed.

Lemma gemini_calls_app tr1 tr2 :
  gemini_calls (tr1 ++ tr2) = gemini_calls tr1 ++ gemini_calls tr2.
Proof. apply omap_app. Qed.

Lemma replies_delivered_app tr1 tr2 :
  replies_delivered (tr1 ++ tr2) = replies_delivered tr1 ++ replies_delivered tr2.
Proof. apply omap_app. Qed.

Lemma retry_run_push_no_gemini uid msg tr c :
  retry_run (io_pushMessage uid msg) tr c -> gemini_calls tr = [].
Proof. intros []; reflexivity. Qed.

Lemma retry_run_push_no_reply uid msg tr c :
  retry_run (io_pushMessage uid msg) tr c -> replies_delivered tr = [].
Proof. intros []; reflexivity. Qed.

Ltac split_pipeline_trace :=
  match goal with
  | |- context [?a :: ?b :: ?t1 ++ ?t2] =>
      change (a :: b :: t1 ++ t2) with ([a; b] ++ t1 ++ t2)
  | |- context [?a :: ?b :: ?t] =>
      change (a :: b :: t) with ([a; b] ++ t)
  | |- context [?a :: ?t] =>
      change (a :: t) with ([a] ++ t)
  end.

Lemma generate_run_gemini_calls uid st tr st' c :
  generate_run uid st tr st' c -> gemini_calls tr = [gemini_args st].
Proof.
  intros H.
  destruct H; split_pipeline_trace; rewrite !gemini_calls_app;
    repeat match goal with
           | Hr : retry_run (io_pushMessage _ _) ?t _ |- _ =>
               rewrite (retry_run_push_no_gemini _ _ _ _ Hr); clear Hr
           end; reflexivity.
Qed.

Lemma generate_run_no_reply uid st tr st' c :
  generate_run uid st tr st' c -> replies_delivered tr = [].
Proof.
  intros H.
  destruct H; split_pipeline_trace; rewrite !replies_delivered_app;
    repeat match goal with
           | Hr : retry_run (io_pushMessage _ _) ?t _ |- _ =>
               rewrite (retry_run_push_no_reply _ _ _ _ Hr); clear Hr
           end; reflexivity.
Qed.

Lemma retry_run_replies_delivered token msg tr c :
  retry_run (io_replyMessage token msg) tr c ->
  replies_delivered tr = match c with Normal _ => [msg] | Throw _ => [] end.
Proof. intros []; reflexivity. Qed.

Lemma retry_run_reply_no_gemini token msg tr c :
  retry_run (io_replyMessage token msg) tr c -> gemini_calls tr = [].
Proof.
  intros H. apply (retry_run_omap_nil _ _ _ _ (fun _ => eq_refl) (fun _ => eq_refl) H).
Qed.

(** The pipeline runs only after the "generating" reply went through. *)
Lemma trigger_run_summary uid token st tr st' c :
  trigger_run uid token st tr st' c ->
  (replies_delivered tr = [] /\ gemini_calls tr = [] /\ st' = st /\ exists e, c = Throw e)
  \/ (replies_delivered tr = [msg_generating] /\ gemini_calls tr = [gemini_args st]).
Proof.
  intros [trr e H|trr r trg st2 c2 H Hgen].
  - left. rewrite (retry_run_replies_delivered _ _ _ _ H),
      (retry_run_reply_no_gemini _ _ _ _ H). eauto.
  - right. rewrite replies_delivered_app, gemini_calls_app.
    rewrite (retry_run_replies_delivered _ _ _ _ H),
      (retry_run_reply_no_gemini _ _ _ _ H),
      (generate_run_no_reply _ _ _ _ _ Hgen),
      (generate_run_gemini_calls _ _ _ _ _ Hgen). split; reflexivity.
Qed.

Lemma generate_run_throw uid st tr st' e :
  generate_run uid st tr st' (Throw e) ->
  st' = st /\ exists pre, tr = pre ++ [io_pushMessage uid msg_failed (rejected e)].
Proof.
  intros H. remember (Throw e) as cc eqn:Hc.
  destruct H as [img url tr1 r1 tr2 r2 H1 H2
                |e0 trf c Hf
                |img e0 trf c Hf
                |img url tr1 e0 trf c H1 Hf
                |img url tr1 r1 tr2 e0 trf c H1 H2 Hf];
    [discriminate|..];
    (split; [reflexivity|]);
    destruct c as [?|e1]; try discriminate;
    simpl in Hc; injection Hc as ->;
    destruct (retry_run_throw_last _ _ _ Hf) as [pre ->].
  - now exists (io_callGeminiImageCompose (gemini_args st) (rejected e0) :: pre).
  - now exists (io_callGeminiImageCompose (gemini_args st) (resolved img)
                :: io_saveTempImage img uid (js "hair") (rejected e0) :: pre).
  - exists (io_callGeminiImageCompose (gemini_args st) (resolved img)
            :: io_saveTempImage img uid (js "hair") (resolved url) :: tr1 ++ pre).
    simpl. now rewrite <- app_assoc.
  - exists (io_callGeminiImageCompose (gemini_args st) (resolved img)
            :: io_saveTempImage img uid (js "hair") (resolved url)
            :: tr1 ++ tr2 ++ pre).
    simpl. now rewrite <- !app_assoc.
Qed.

Lemma event_run_throw uid token st tr st' c e :
  event_run uid token st tr st' c -> c = Throw e ->
  exists pre x, tr = pre ++ [x] /\ rejected_with e x.
Proof.
  intros H Hc.
  destruct H as [|id e0|id buf e0|pre msg st2 tr c Hf Hrun|txt tr st2 c Hstep Hface Hrun].
  - discriminate.
  - injection Hc as ->. now exists [], (io_getImageBuffer id (rejected e)).
  - injection Hc as ->.
    now exists [io_getImageBuffer id (resolved buf)], (io_preprocessImage buf (rejected e)).
  - subst c. destruct (retry_run_throw_last _ _ _ Hrun) as [p ->].
    exists (pre ++ p), (io_replyMessage token msg (rejected e)).
    split; [now rewrite app_assoc|reflexivity].
  - subst c. inversion Hrun as [trr e0 Hr|trr r trg st3 c2 Hr Hgen]; subst.
    + destruct (retry_run_throw_last _ _ _ Hr) as [p ->].
      now exists p, (io_replyMessage token msg_generating (rejected e)).
    + destruct c2 as [?|e1]; try discriminate.
      match goal with Hd : Throw _ = Throw _ |- _ => injection Hd as -> end.
      destruct (generate_run_throw _ _ _ _ _ Hgen) as [_ [p ->]].
      exists (trr ++ p), (io_pushMessage uid msg_failed (rejected e)).
      split; [now rewrite app_assoc|reflexivity].
Qed.

Lemma omap_none {B} (f : IO -> option B) (tr : Trace) :
  Forall (fun x => f x = None) tr -> omap f tr = [].
Proof.
  induction 1 as [|x l Hx Hl IH]; [reflexivity|].
  simpl. now rewrite Hx.
Qed.

Lemma generate_run_no_reply_attempt uid st tr st' c :
  generate_run uid st tr st' c -> reply_attempts tr = [].
Proof.
  intros H. apply omap_none.
  eapply generate_run_Forall; [..|exact H]; reflexivity.
Qed.

Lemma pushes_Forall (P : jsstring * Message -> Prop) (tr : Trace) :
  Forall (fun x => match x with io_pushMessage u m _ => P (u, m) | _ => True end) tr ->
  Forall P (pushes tr).
Proof.
  unfold pushes. induction 1 as [|x l Hx Hl IH]; [constructor|].
  destruct x; simpl; try exact IH. constructor; [exact Hx|exact IH].
Qed.

(** ** What holds of every event *)

(** X1. Handling an event changes no entry of [userState] but the
    sender's, leaves the sender with an entry, and only appends to the
    trace. *)
Theorem only_sender_entry_touched (E : Env) (ev : Event) (w : World) :
  delete (userId ev) (userState (after E ev w)) = delete (userId ev) (userState w)
  /\ is_Some (userState (after E ev w) !! userId ev)
  /\ trace (after E ev w) = trace w ++ emitted E ev w.
Proof.
  destruct (handleEvent_run_after E ev w) as (c & st' & _ & _ & Hu & Ht).
  rewrite Hu. split; [apply delete_insert_eq|]. split; [|assumption].
  rewrite lookup_insert_eq. eauto.
Qed.

(** X2. All reply attempts of one event use the event's own reply token
    and carry one and the same message, and at most one of them succeeds:
    the single-use token is never used for a second message. *)
Theorem one_reply_per_event (E : Env) (ev : Event) (w : World) :
  (exists msg, Forall (eq (replyToken ev, msg)) (reply_attempts (emitted E ev w)))
  /\ (length (replies_delivered (emitted E ev w)) <= 1)%nat.
Proof.
  destruct (handleEvent_run_after E ev w) as (c & st' & Hrun & _).
  assert (Hreply : forall msg t cc,
             retry_run (io_replyMessage (replyToken ev) msg) t cc ->
             Forall (eq (replyToken ev, msg)) (reply_attempts t)
             /\ (length (replies_delivered t) <= 1)%nat).
  { intros msg t cc []; simpl; split; repeat constructor. }
  destruct Hrun as [|id e|id buf e|pre msg st2 tr c Hf Hr|txt tr st2 c Hs Hface Hr].
  - split; [exists msg_hello; constructor|simpl; lia].
  - split; [exists msg_hello; constructor|simpl; lia].
  - split; [exists msg_hello; constructor|simpl; lia].
  - destruct (Hreply _ _ _ Hr) as [Ha Hd].
    unfold reply_attempts, replies_delivered in *. rewrite !omap_app.
    destruct Hf; simpl; split; eauto.
  - destruct Hr as [trr e Hr|trr r trg st3 c2 Hr Hg].
    + destruct (Hreply _ _ _ Hr) as [Ha Hd]. eauto.
    + destruct (Hreply _ _ _ Hr) as [Ha Hd]. split.
      * exists msg_generating. unfold reply_attempts in *. rewrite omap_app.
        fold (reply_attempts trg).
        rewrite (generate_run_no_reply_attempt _ _ _ _ _ Hg), app_nil_r. exact Ha.
      * rewrite replies_delivered_app, (generate_run_no_reply _ _ _ _ _ Hg), app_nil_r.
        exact Hd.
Qed.

(** X3. An event leads to at most one Gemini call, and to one only in
    step AWAIT_COLOR, after the "generating" reply was delivered, with the
    stored selfie (non-empty) as the face and with [null] or a non-empty
    string as the reference image. *)
Theorem gemini_called_only_with_selfie (E : Env) (ev : Event) (w : World) :
  gemini_calls (emitted E ev w) = []
  \/ exists a,
       gemini_calls (emitted E ev w) = [a]
       /\ arg_faceB64 a = faceB64 (current_state w (userId ev))
       /\ truthy (arg_faceB64 a) = true
       /\ (arg_modelB64 a = null \/ truthy (arg_modelB64 a) = true)
       /\ step (current_state w (userId ev)) = await_color
       /\ replies_delivered (emitted E ev w) = [msg_generating].
Proof.
  destruct (handleEvent_run_after E ev w) as (c & st' & Hrun & _).
  destruct Hrun as [|id e|id buf e|pre msg st2 tr c Hf Hr|txt tr st2 c Hs Hface Hr].
  - now left.
  - now left.
  - now left.
  - left. rewrite gemini_calls_app, (retry_run_reply_no_gemini _ _ _ _ Hr).
    now destruct Hf.
  - destruct (trigger_run_summary _ _ _ _ _ _ Hr) as [(_ & Hg & _)|[Hd Hg]];
      [now left|right].
    eexists. split; [exact Hg|]. cbn [gemini_args arg_faceB64 arg_modelB64 set_color
                                     faceB64 modelB64].
    repeat split; try assumption.
    unfold or_null. destruct (truthy (modelB64 _)) eqn:Hm; auto.
Qed.

(** X4. When the handler throws, the error is the one a collaborator
    rejected its last call with, and that call is the image download, the
    sharp run, a reply or a push: an error of the Gemini call or of the file
    store never escapes the handler. *)
Theorem thrown_error_is_last_rejection (E : Env) (ev : Event) (w : World)
    (e : JsError) :
  fst (handleEvent E ev w) = Throw e ->
  exists pre x, emitted E ev w = pre ++ [x] /\ rejected_with e x.
Proof.
  intros H.
  destruct (handleEvent_run_after E ev w) as (c & st' & Hrun & Hc & _).
  rewrite H in Hc. symmetry in Hc.
  exact (event_run_throw _ _ _ _ _ _ _ Hrun Hc).
Qed.

Lemma thrown_error_is_last_rejection_witness :
  exists pre x,
    emitted reply_down_env (text_event "abc") no_users = pre ++ [x]
    /\ rejected_with (Error "429") x.
Proof.
  apply (thrown_error_is_last_rejection reply_down_env (text_event "abc") no_users).
  reflexivity.
Defined.

(** X5. Every push of an event goes to the sender and carries the image,
    the completion message or the apology; and nothing is pushed unless the
    Gemini call was made. *)
Theorem pushes_follow_the_pipeline (E : Env) (ev : Event) (w : World) :
  Forall (fun p => fst p = userId ev
                   /\ (snd p = msg_failed \/ snd p = msg_done
                       \/ exists url, snd p = image_message url url))
         (pushes (emitted E ev w))
  /\ (pushes (emitted E ev w) <> [] -> gemini_calls (emitted E ev w) <> []).
Proof.
  destruct (handleEvent_run_after E ev w) as (c & st' & Hrun & _).
  split.
  - apply pushes_Forall.
    eapply event_run_Forall; [..|exact Hrun]; simpl; auto.
  - assert (Hreply : forall msg t cc,
               retry_run (io_replyMessage (replyToken ev) msg) t cc -> pushes t = []).
    { intros msg t cc []; reflexivity. }
    destruct Hrun as [|id e|id buf e|pre msg st2 tr c Hf Hr|txt tr st2 c Hs Hface Hr].
    + intros []; reflexivity.
    + intros []; reflexivity.
    + intros []; reflexivity.
    + intros Hp. exfalso. apply Hp. unfold pushes. rewrite omap_app.
      fold (pushes tr). rewrite (Hreply _ _ _ Hr). now destruct Hf.
    + destruct Hr as [trr e Hr|trr r trg st3 c2 Hr Hg].
      * intros Hp. exfalso. apply Hp. exact (Hreply _ _ _ Hr).
      * intros _. rewrite gemini_calls_app, (generate_run_gemini_calls _ _ _ _ _ Hg).
        now destruct (gemini_calls trr).
Qed.

(** ** The other branches of the text handler *)

Section OtherTextBranches.

Variable E : Env.

Lemma handleText_greeting (uid token : jsstring) (text : option jsstring)
    (m : gmap jsstring State) (st : State) (tr : Trace) :
  isGreeting (trimmed_text text) = true ->
  handleText E uid token text (mkWorld (<[uid := st]> m) tr)
  = reply E token msg_hello (mkWorld (<[uid := fresh_state]> m) tr).
Proof.
  intros Hg. unfold handleText. cbv zeta. rewrite Hg. now run_handler.
Qed.

(** The three follow-up buttons, in the steps where their branches are
    reached. *)
Lemma handleText_shortcuts (uid token : jsstring) (text : option jsstring)
    (m : gmap jsstring State) (st : State) (tr : Trace) :
  step st = await_face \/ step st = await_model_image ->
  (trimmed_text text = js "もう一度試す" ->
   handleText E uid token text (mkWorld (<[uid := st]> m) tr)
   = reply E token msg_next_style
       (mkWorld (<[uid := {| step := await_style; faceB64 := or_null (faceB64 st);
                             style := null; color := null; modelB64 := null |}]> m) tr))
  /\ (trimmed_text text = js "髪型を変える" ->
      handleText E uid token text (mkWorld (<[uid := st]> m) tr)
      = reply E token msg_which_style
          (mkWorld (<[uid := set_modelB64 null (set_style null (set_step await_style st))]> m)
                   tr))
  /\ (trimmed_text text = js "髪色だけ変える" ->
      handleText E uid token text (mkWorld (<[uid := st]> m) tr)
      = reply E token msg_pick_color (mkWorld (<[uid := set_step await_color st]> m) tr)).
Proof.
  intros Hs. repeat split; intros Ht; unfold handleText; cbv zeta; rewrite Ht.
  - change (isGreeting (js "もう一度試す")) with false.
    change (test_literal (js "モデル写真") (js "もう一度試す")) with false.
    run_handler.
    change (bool_decide (js "もう一度試す" = js "自由入力✍️")) with false.
    change (bool_decide (js "もう一度試す" = js "もう一度試す")) with true.
    destruct Hs as [-> | ->]; cbn [Step_eqb]; now run_handler.
  - change (isGreeting (js "髪型を変える")) with false.
    change (test_literal (js "モデル写真") (js "髪型を変える")) with false.
    run_handler.
    change (bool_decide (js "髪型を変える" = js "自由入力✍️")) with false.
    change (bool_decide (js "髪型を変える" = js "もう一度試す")) with false.
    change (bool_decide (js "髪型を変える" = js "髪型を変える")) with true.
    destruct Hs as [-> | ->]; cbn [Step_eqb]; now run_handler.
  - change (isGreeting (js "髪色だけ変える")) with false.
    change (test_literal (js "モデル写真") (js "髪色だけ変える")) with false.
    run_handler.
    change (bool_decide (js "髪色だけ変える" = js "自由入力✍️")) with false.
    change (bool_decide (js "髪色だけ変える" = js "もう一度試す")) with false.
    change (bool_decide (js "髪色だけ変える" = js "髪型を変える")) with false.
    change (bool_decide (js "髪色だけ変える" = js "髪色だけ変える")) with true.
    destruct Hs as [-> | ->]; cbn [Step_eqb]; now run_handler.
Qed.

End OtherTextBranches.

(** X6. A greeting, in any state and whatever its ASCII case or the
    white space around it, replaces the sender's state by the initial one
    (step AWAIT_FACE, no selfie, style or color, no [modelB64] property) and
    is answered with the welcome text only. *)
Theorem greeting_resets_state (E : Env) (ev : Event) (w : World)
    (text : option jsstring) :
  type ev = type_message (text_in text) ->
  isGreeting (trimmed_text text) = true ->
  userState (after E ev w) !! userId ev
  = Some {| step := await_face; faceB64 := null; style := null; color := null;
            modelB64 := undefined |}
  /\ replied (replyToken ev) msg_hello (emitted E ev w).
Proof.
  intros Ht Hg. apply (reply_tail E ev w (userState w)).
  rewrite (handleEvent_text E ev text w Ht). now apply handleText_greeting.
Qed.

Lemma greeting_resets_state_witness :
  userState (after calm_env (text_event "  HeLLo ")
               (world_of {| step := await_color; faceB64 := str (js "F");
                            style := str (js "ボブ"); color := null;
                            modelB64 := str (js "R") |})) !! js "U1"
  = Some fresh_state.
Proof.
  exact (proj1 (greeting_resets_state calm_env (text_event "  HeLLo ")
                  (world_of {| step := await_color; faceB64 := str (js "F");
                               style := str (js "ボブ"); color := null;
                               modelB64 := str (js "R") |})
                  (Some (js "  HeLLo ")) eq_refl eq_refl)).
Defined.

(** X7. In step AWAIT_STYLE every text that is no greeting, has no
    [モデル写真] in it and is not the free-text marker is stored, trimmed but
    otherwise verbatim, as the style, and the step becomes AWAIT_COLOR: this
    holds for the style buttons, for the follow-up buttons and for the empty
    text alike. *)
Theorem await_style_stores_text (E : Env) (ev : Event) (w : World)
    (text : option jsstring) :
  type ev = type_message (text_in text) ->
  isGreeting (trimmed_text text) = false ->
  test_literal (js "モデル写真") (trimmed_text text) = false ->
  trimmed_text text <> js "自由入力✍️" ->
  step (current_state w (userId ev)) = await_style ->
  userState (after E ev w) !! userId ev
  = Some {| step := await_color;
            faceB64 := faceB64 (current_state w (userId ev));
            style := str (trimmed_text text);
            color := color (current_state w (userId ev));
            modelB64 := modelB64 (current_state w (userId ev)) |}
  /\ replied (replyToken ev) msg_ask_color (emitted E ev w).
Proof.
  intros Ht Hg Hm Hf Hs. apply (reply_tail E ev w (userState w)).
  rewrite (handleEvent_text E ev text w Ht). now apply handleText_await_style.
Qed.

Lemma await_style_stores_text_witness :
  userState (after calm_env
               {| userId := js "U1"; replyToken := js "T1";
                  type := type_message (text_in None) |}
               (world_of {| step := await_style; faceB64 := str (js "F");
                            style := null; color := null; modelB64 := undefined |}))
    !! js "U1"
  = Some {| step := await_color; faceB64 := str (js "F"); style := str [];
            color := null; modelB64 := undefined |}.
Proof.
  refine (proj1 (await_style_stores_text calm_env
                   {| userId := js "U1"; replyToken := js "T1";
                      type := type_message (text_in None) |}
                   (world_of {| step := await_style; faceB64 := str (js "F");
                                style := null; color := null; modelB64 := undefined |})
                   None eq_refl eq_refl eq_refl _ eq_refl)).
  vm_compute. discriminate.
Defined.

(** X8. With the step AWAIT_FACE or AWAIT_MODEL_IMAGE the follow-up
    buttons do what their labels say. [もう一度試す] keeps a non-empty selfie
    (an empty one becomes [null]), clears style, color and reference image
    and sets the step to AWAIT_STYLE; [髪型を変える] clears style and
    reference image, keeps selfie and color, and sets the step to
    AWAIT_STYLE; [髪色だけ変える] changes nothing but the step, to
    AWAIT_COLOR. *)
Theorem shortcuts_where_reached (E : Env) (ev : Event) (w : World)
    (text : option jsstring) :
  type ev = type_message (text_in text) ->
  step (current_state w (userId ev)) = await_face
  \/ step (current_state w (userId ev)) = await_model_image ->
  (trimmed_text text = js "もう一度試す" ->
   userState (after E ev w) !! userId ev
   = Some {| step := await_style;
             faceB64 := or_null (faceB64 (current_state w (userId ev)));
             style := null; color := null; modelB64 := null |}
   /\ replied (replyToken ev) msg_next_style (emitted E ev w))
  /\ (trimmed_text text = js "髪型を変える" ->
      userState (after E ev w) !! userId ev
      = Some {| step := await_style;
                faceB64 := faceB64 (current_state w (userId ev));
                style := null;
                color := color (current_state w (userId ev));
                modelB64 := null |}
      /\ replied (replyToken ev) msg_which_style (emitted E ev w))
  /\ (trimmed_text text = js "髪色だけ変える" ->
      userState (after E ev w) !! userId ev
      = Some (set_step await_color (current_state w (userId ev)))
      /\ replied (replyToken ev) msg_pick_color (emitted E ev w)).
Proof.
  intros Ht Hs.
  pose proof (handleEvent_text E ev text w Ht) as Hev.
  destruct (handleText_shortcuts E (userId ev) (replyToken ev) text (userState w)
              (current_state w (userId ev)) (trace w) Hs) as (H1 & H2 & H3).
  split; [|split]; intros Htxt; apply (reply_tail E ev w (userState w));
    rewrite Hev.
  - exact (H1 Htxt).
  - exact (H2 Htxt).
  - exact (H3 Htxt).
Qed.

Lemma shortcuts_where_reached_witness :
  userState (after calm_env (text_event "髪型を変える")
               (world_of {| step := await_model_image; faceB64 := str (js "F");
                            style := str (js "ボブ"); color := str (js "黒髪");
                            modelB64 := str (js "R") |})) !! js "U1"
  = Some {| step := await_style; faceB64 := str (js "F"); style := null;
            color := str (js "黒髪"); modelB64 := null |}.
Proof.
  exact (proj1 (proj1 (proj2 (shortcuts_where_reached calm_env
                                (text_event "髪型を変える")
                                (world_of {| step := await_model_image;
                                             faceB64 := str (js "F");
                                             style := str (js "ボブ");
                                             color := str (js "黒髪");
                                             modelB64 := str (js "R") |})
                                (Some (js "髪型を変える")) eq_refl
                                (or_intror eq_refl))) eq_refl)).
Defined.

(** ** The other branches of the image handler *)

Section OtherImageBranches.

Variable E : Env.

Lemma image_by_state (ev : Event) (w : World) (id : jsstring) (buf pre : Buffer) :
  type ev = type_message (image_in id) ->
  env_getImageBuffer E (trace w) id = resolved buf ->
  env_preprocessImage E (trace w ++ [io_getImageBuffer id (resolved buf)]) buf
  = resolved pre ->
  exists msg st',
    userState (after E ev w) !! userId ev = Some st'
    /\ (exists tr,
          emitted E ev w
          = [io_getImageBuffer id (resolved buf); io_preprocessImage buf (resolved pre)]
            ++ tr
          /\ replied (replyToken ev) msg tr)
    /\ (msg, st')
       = if Step_eqb (step (current_state w (userId ev))) await_face
            || negb (truthy (faceB64 (current_state w (userId ev))))
         then (msg_face_received,
               set_step await_style
                 (set_faceB64 (str (toString_base64 E pre)) (current_state w (userId ev))))
         else if Step_eqb (step (current_state w (userId ev))) await_model_image
         then (msg_model_received,
               set_step await_color
                 (set_modelB64 (str (toString_base64 E pre)) (current_state w (userId ev))))
         else (msg_face_updated,
               set_step await_style
                 (set_faceB64 (str (toString_base64 E pre)) (current_state w (userId ev)))).
Proof.
  intros Ht Hb Hp.
  pose proof (handleEvent_image E ev id w Ht) as Hev.
  rewrite (handleImage_fetched _ _ _ _ buf pre _ _ _ Hb Hp) in Hev.
  cbv zeta in Hev.
  destruct (Step_eqb (step (current_state w (userId ev))) await_face
            || negb (truthy (faceB64 (current_state w (userId ev)))));
    [|destruct (Step_eqb (step (current_state w (userId ev))) await_model_image)];
    apply reply_tail_after in Hev; destruct Hev as [Hst Hem];
    eexists _, _; (split; [exact Hst|]); (split; [exact Hem|]); reflexivity.
Qed.

End OtherImageBranches.

(** X9. An image that arrives while no selfie is stored, or in step
    AWAIT_FACE, becomes the selfie whatever the step is: also a user who was
    asked for a reference photo (AWAIT_MODEL_IMAGE) but has no selfie gets
    the image stored as the selfie, with the step AWAIT_STYLE and the
    "nice shot" reply. *)
Theorem image_without_selfie_is_the_selfie (E : Env) (ev : Event) (w : World)
    (id : jsstring) (buf pre : Buffer) :
  type ev = type_message (image_in id) ->
  step (current_state w (userId ev)) = await_face
  \/ truthy (faceB64 (current_state w (userId ev))) = false ->
  env_getImageBuffer E (trace w) id = resolved buf ->
  env_preprocessImage E (trace w ++ [io_getImageBuffer id (resolved buf)]) buf
  = resolved pre ->
  userState (after E ev w) !! userId ev
  = Some {| step := await_style;
            faceB64 := str (toString_base64 E pre);
            style := style (current_state w (userId ev));
            color := color (current_state w (userId ev));
            modelB64 := modelB64 (current_state w (userId ev)) |}
  /\ exists tr,
       emitted E ev w
       = [io_getImageBuffer id (resolved buf); io_preprocessImage buf (resolved pre)]
         ++ tr
       /\ replied (replyToken ev) msg_face_received tr.
Proof.
  intros Ht Hs Hb Hp.
  destruct (image_by_state E ev w id buf pre Ht Hb Hp) as (msg & st' & Hst & Hem & Heq).
  assert (Hc : Step_eqb (step (current_state w (userId ev))) await_face
               || negb (truthy (faceB64 (current_state w (userId ev)))) = true).
  { destruct Hs as [-> | ->]; [reflexivity|apply orb_true_r]. }
  rewrite Hc in Heq. injection Heq as -> ->. split; assumption.
Qed.

Lemma image_without_selfie_is_the_selfie_witness :
  userState (after calm_env (image_event "m1")
               (world_of {| step := await_model_image; faceB64 := null;
                            style := null; color := null; modelB64 := undefined |}))
    !! js "U1"
  = Some {| step := await_style; faceB64 := str (js "m1"); style := null;
            color := null; modelB64 := undefined |}.
Proof.
  exact (proj1 (image_without_selfie_is_the_selfie calm_env (image_event "m1")
                  (world_of {| step := await_model_image; faceB64 := null;
                               style := null; color := null; modelB64 := undefined |})
                  (js "m1") (js "m1") (js "m1")
                  eq_refl (or_intror eq_refl) eq_refl eq_refl)).
Defined.

(** X10. In step AWAIT_MODEL_IMAGE with a selfie stored, an image is
    stored as the reference image; the selfie, the style and the color stay
    and the step becomes AWAIT_COLOR. *)
Theorem reference_image_is_stored (E : Env) (ev : Event) (w : World)
    (id : jsstring) (buf pre : Buffer) :
  type ev = type_message (image_in id) ->
  step (current_state w (userId ev)) = await_model_image ->
  truthy (faceB64 (current_state w (userId ev))) = true ->
  env_getImageBuffer E (trace w) id = resolved buf ->
  env_preprocessImage E (trace w ++ [io_getImageBuffer id (resolved buf)]) buf
  = resolved pre ->
  userState (after E ev w) !! userId ev
  = Some {| step := await_color;
            faceB64 := faceB64 (current_state w (userId ev));
            style := style (current_state w (userId ev));
            color := color (current_state w (userId ev));
            modelB64 := str (toString_base64 E pre) |}
  /\ exists tr,
       emitted E ev w
       = [io_getImageBuffer id (resolved buf); io_preprocessImage buf (resolved pre)]
         ++ tr
       /\ replied (replyToken ev) msg_model_received tr.
Proof.
  intros Ht Hs Hf Hb Hp.
  destruct (image_by_state E ev w id buf pre Ht Hb Hp) as (msg & st' & Hst & Hem & Heq).
  rewrite Hs, Hf in Heq. cbn in Heq. injection Heq as -> ->. split; assumption.
Qed.

Lemma reference_image_is_stored_witness :
  userState (after calm_env (image_event "m3")
               (world_of {| step := await_model_image; faceB64 := str (js "F");
                            style := null; color := null; modelB64 := undefined |}))
    !! js "U1"
  = Some {| step := await_color; faceB64 := str (js "F"); style := null;
            color := null; modelB64 := str (js "m3") |}.
Proof.
  exact (proj1 (reference_image_is_stored calm_env (image_event "m3")
                  (world_of {| step := await_model_image; faceB64 := str (js "F");
                               style := null; color := null; modelB64 := undefined |})
                  (js "m3") (js "m3") (js "m3")
                  eq_refl eq_refl eq_refl eq_refl eq_refl)).
Defined.

(** X11. In step AWAIT_COLOR with a selfie stored, an image replaces the
    selfie and sends the user back to AWAIT_STYLE; the style, the color
    and the reference image chosen so far stay in the state. *)
Theorem image_in_await_color_restarts (E : Env) (ev : Event) (w : World)
    (id : jsstring) (buf pre : Buffer) :
  type ev = type_message (image_in id) ->
  step (current_state w (userId ev)) = await_color ->
  truthy (faceB64 (current_state w (userId ev))) = true ->
  env_getImageBuffer E (trace w) id = resolved buf ->
  env_preprocessImage E (trace w ++ [io_getImageBuffer id (resolved buf)]) buf
  = resolved pre ->
  userState (after E ev w) !! userId ev
  = Some {| step := await_style;
            faceB64 := str (toString_base64 E pre);
            style := style (current_state w (userId ev));
            color := color (current_state w (userId ev));
            modelB64 := modelB64 (current_state w (userId ev)) |}
  /\ exists tr,
       emitted E ev w
       = [io_getImageBuffer id (resolved buf); io_preprocessImage buf (resolved pre)]
         ++ tr
       /\ replied (replyToken ev) msg_face_updated tr.
Proof.
  intros Ht Hs Hf Hb Hp.
  destruct (image_by_state E ev w id buf pre Ht Hb Hp) as (msg & st' & Hst & Hem & Heq).
  rewrite Hs, Hf in Heq. cbn in Heq. injection Heq as -> ->. split; assumption.
Qed.

Lemma image_in_await_color_restarts_witness :
  userState (after calm_env (image_event "m4")
               (world_of {| step := await_color; faceB64 := str (js "F");
                            style := str (js "ボブ"); color := null;
                            modelB64 := str (js "R") |}))
    !! js "U1"
  = Some {| step := await_style; faceB64 := str (js "m4"); style := str (js "ボブ");
            color := null; modelB64 := str (js "R") |}.
Proof.
  exact (proj1 (image_in_await_color_restarts calm_env (image_event "m4")
                  (world_of {| step := await_color; faceB64 := str (js "F");
                               style := str (js "ボブ"); color := null;
                               modelB64 := str (js "R") |})
                  (js "m4") (js "m4") (js "m4")
                  eq_refl eq_refl eq_refl eq_refl eq_refl)).
Defined.

(** X12. When the download of the image or the sharp run fails, the
    handler throws that error, replies nothing and leaves the sender's
    state as it was. *)
Theorem image_fetch_failure_changes_nothing (E : Env) (ev : Event) (w : World)
    (id : jsstring) (e : JsError) :
  type ev = type_message (image_in id) ->
  env_getImageBuffer E (trace w) id = rejected e
  \/ (exists buf,
        env_getImageBuffer E (trace w) id = resolved buf
        /\ env_preprocessImage E (trace w ++ [io_getImageBuffer id (resolved buf)]) buf
           = rejected e) ->
  fst (handleEvent E ev w) = Throw e
  /\ userState (after E ev w) !! userId ev = Some (current_state w (userId ev))
  /\ reply_attempts (emitted E ev w) = []
  /\ (emitted E ev w = [io_getImageBuffer id (rejected e)]
      \/ exists buf,
           emitted E ev w
           = [io_getImageBuffer id (resolved buf); io_preprocessImage buf (rejected e)]).
Proof.
  intros Ht [Hb|(buf & Hb & Hp)]; unfold emitted, after;
    rewrite (handleEvent_image E ev id w Ht).
  - rewrite (handleImage_download_failed E _ _ _ e _ _ _ Hb).
    cbn [fst snd trace userState]. rewrite drop_app_length, lookup_insert_eq.
    repeat split; auto.
  - rewrite (handleImage_sharp_failed E _ _ _ buf e _ _ _ Hb Hp).
    cbn [fst snd trace userState]. rewrite drop_app_length, lookup_insert_eq.
    repeat split; eauto.
Qed.

Lemma image_fetch_failure_changes_nothing_witness :
  fst (handleEvent download_down_env (image_event "m5")
         (world_of {| step := await_face; faceB64 := null; style := null;
                      color := null; modelB64 := undefined |}))
  = Throw (Error "404").
Proof.
  exact (proj1 (image_fetch_failure_changes_nothing download_down_env
                  (image_event "m5")
                  (world_of {| step := await_face; faceB64 := null; style := null;
                               color := null; modelB64 := undefined |})
                  (js "m5") (Error "404") eq_refl (or_introl eq_refl))).
Defined.

(** ** More on the pipeline *)

Lemma generate_run_delivered_done uid st tr st' c :
  generate_run uid st tr st' c ->
  In msg_done (delivered tr) ->
  exists img url,
    In (io_callGeminiImageCompose (gemini_args st) (resolved img)) tr
    /\ In (io_saveTempImage img uid (js "hair") (resolved url)) tr
    /\ delivered tr = [image_message url url; msg_done].
Proof.
  intros H Hin.
  destruct H as [img url tr1 r1 tr2 r2 H1 H2
                |e trf c Hf
                |img e trf c Hf
                |img url tr1 e trf c H1 Hf
                |img url tr1 r1 tr2 e trf c H1 H2 Hf].
  { exists img, url. split; [now left|]. split; [right; now left|].
    now rewrite delivered_gemini, delivered_save, delivered_app,
      (delivered_push _ _ _ _ H1), (delivered_push _ _ _ _ H2). }
  all: exfalso;
    rewrite ?delivered_gemini, ?delivered_save, ?delivered_app in Hin;
    try rewrite (delivered_push _ _ _ _ H1) in Hin;
    try rewrite (delivered_push _ _ _ _ H2) in Hin;
    rewrite (delivered_push _ _ _ _ Hf) in Hin;
    destruct c; simpl in Hin; intuition discriminate.
Qed.

Lemma generate_run_unfinished uid st tr st' c :
  generate_run uid st tr st' c ->
  ~ In msg_done (delivered tr) ->
  st' = st
  /\ exists pre trf cf,
       tr = pre ++ trf
       /\ retry_run (io_pushMessage uid msg_failed) trf cf
       /\ c = drop_value cf.
Proof.
  intros H Hno.
  destruct H as [img url tr1 r1 tr2 r2 H1 H2
                |e trf c Hf
                |img e trf c Hf
                |img url tr1 e trf c H1 Hf
                |img url tr1 r1 tr2 e trf c H1 H2 Hf].
  - exfalso. apply Hno.
    rewrite delivered_gemini, delivered_save, delivered_app,
      (delivered_push _ _ _ _ H1), (delivered_push _ _ _ _ H2).
    right; now left.
  - split; [reflexivity|].
    now exists [io_callGeminiImageCompose (gemini_args st) (rejected e)], trf, c.
  - split; [reflexivity|].
    now exists [io_callGeminiImageCompose (gemini_args st) (resolved img);
                io_saveTempImage img uid (js "hair") (rejected e)], trf, c.
  - split; [reflexivity|].
    exists (io_callGeminiImageCompose (gemini_args st) (resolved img)
            :: io_saveTempImage img uid (js "hair") (resolved url) :: tr1), trf, c.
    now repeat split.
  - split; [reflexivity|].
    exists (io_callGeminiImageCompose (gemini_args st) (resolved img)
            :: io_saveTempImage img uid (js "hair") (resolved url) :: tr1 ++ tr2), trf, c.
    repeat split; try assumption. simpl. now rewrite <- app_assoc.
Qed.

(** X13. Once the pipeline was triggered and the "generating" reply went
    through, the state is reset only together with the completion message:
    if that message was not delivered (because the Gemini call, the file
    store, the image push or the completion push failed), the state stays
    as it stood at the trigger, color included, and the last thing the
    handler does is one push of the apology, whose failure is the only
    error it can throw. *)
Theorem unfinished_pipeline_keeps_state (E : Env) (ev : Event) (w : World)
    (text : option jsstring) :
  type ev = type_message (text_in text) ->
  isGreeting (trimmed_text text) = false ->
  test_literal (js "モデル写真") (trimmed_text text) = false ->
  trimmed_text text <> js "自由入力✍️" ->
  step (current_state w (userId ev)) = await_color ->
  truthy (faceB64 (current_state w (userId ev))) = true ->
  In msg_generating (delivered (emitted E ev w)) ->
  ~ In msg_done (delivered (emitted E ev w)) ->
  userState (after E ev w) !! userId ev
  = Some {| step := await_color;
            faceB64 := faceB64 (current_state w (userId ev));
            style := style (current_state w (userId ev));
            color := str (color_value (trimmed_text text));
            modelB64 := modelB64 (current_state w (userId ev)) |}
  /\ exists pre trf cf,
       emitted E ev w = pre ++ trf
       /\ retry_run (io_pushMessage (userId ev) msg_failed) trf cf
       /\ fst (handleEvent E ev w)
          = match cf with Normal _ => Normal None | Throw e => Throw e end.
Proof.
  intros Ht Hg Hm Hf Hs Hface Hgen Hno.
  pose proof (handleEvent_text E ev text w Ht) as Hev.
  rewrite (handleText_await_color E _ _ _ _ _ _ Hg Hm Hf Hs), Hface in Hev.
  destruct (trigger_tail E ev w _ _ Hev) as (c & st' & Hrun & Hst & Hc).
  remember (emitted E ev w) as em eqn:Hem. clear Hem.
  destruct Hrun as [trr e Hr|trr r trg st2 c2 Hr Hrun].
  - rewrite (delivered_reply _ _ _ _ Hr) in Hgen. contradiction.
  - rewrite delivered_app, (delivered_reply _ _ _ _ Hr) in Hno.
    assert (Hno2 : ~ In msg_done (delivered trg)).
    { intros Hi. apply Hno. now right. }
    destruct (generate_run_unfinished _ _ _ _ _ Hrun Hno2)
      as (-> & pre & trf & cf & -> & Hp & ->).
    split.
    + rewrite Hst. unfold set_color. now rewrite Hs.
    + exists (trr ++ pre), trf, cf. rewrite app_assoc.
      repeat split; try assumption. rewrite Hc. now destruct cf.
Qed.

Lemma unfinished_pipeline_keeps_state_witness :
  userState (after store_down_env (text_event "黒髪")
               (world_of {| step := await_color; faceB64 := str (js "F");
                            style := str (js "ボブ"); color := null;
                            modelB64 := undefined |})) !! js "U1"
  = Some {| step := await_color; faceB64 := str (js "F");
            style := str (js "ボブ"); color := str (js "黒髪");
            modelB64 := undefined |}.
Proof.
  refine (proj1 (unfinished_pipeline_keeps_state store_down_env (text_event "黒髪")
                   (world_of {| step := await_color; faceB64 := str (js "F");
                                style := str (js "ボブ"); color := null;
                                modelB64 := undefined |})
                   (Some (js "黒髪")) eq_refl eq_refl eq_refl _ eq_refl eq_refl _ _)).
  - vm_compute. discriminate.
  - vm_compute. left; reflexivity.
  - vm_compute. intros [H|[H|H]]; [discriminate H|discriminate H|exact H].
Defined.

(** X14. When all three attempts of the "generating" reply are rejected,
    the handler throws that error without calling Gemini or pushing
    anything; the color taken from the text is already in the state. *)
Theorem failed_generating_reply_stops_pipeline (E : Env) (ev : Event) (w : World)
    (text : option jsstring) :
  type ev = type_message (text_in text) ->
  isGreeting (trimmed_text text) = false ->
  test_literal (js "モデル写真") (trimmed_text text) = false ->
  trimmed_text text <> js "自由入力✍️" ->
  step (current_state w (userId ev)) = await_color ->
  truthy (faceB64 (current_state w (userId ev))) = true ->
  replies_delivered (emitted E ev w) = [] ->
  gemini_calls (emitted E ev w) = []
  /\ pushes (emitted E ev w) = []
  /\ userState (after E ev w) !! userId ev
     = Some {| step := await_color;
               faceB64 := faceB64 (current_state w (userId ev));
               style := style (current_state w (userId ev));
               color := str (color_value (trimmed_text text));
               modelB64 := modelB64 (current_state w (userId ev)) |}
  /\ exists e,
       fst (handleEvent E ev w) = Throw e
       /\ retry_run (io_replyMessage (replyToken ev) msg_generating)
            (emitted E ev w) (Throw e).
Proof.
  intros Ht Hg Hm Hf Hs Hface Hnone.
  pose proof (handleEvent_text E ev text w Ht) as Hev.
  rewrite (handleText_await_color E _ _ _ _ _ _ Hg Hm Hf Hs), Hface in Hev.
  destruct (trigger_tail E ev w _ _ Hev) as (c & st' & Hrun & Hst & Hc).
  remember (emitted E ev w) as em eqn:Hem. clear Hem.
  destruct Hrun as [trr e Hr|trr r trg st2 c2 Hr Hrun].
  - split; [exact (retry_run_reply_no_gemini _ _ _ _ Hr)|].
    split; [now destruct Hr|].
    split; [rewrite Hst; unfold set_color; now rewrite Hs|].
    exists e. split; assumption.
  - rewrite replies_delivered_app, (retry_run_replies_delivered _ _ _ _ Hr) in Hnone.
    discriminate.
Qed.

Lemma failed_generating_reply_stops_pipeline_witness :
  gemini_calls (emitted reply_down_env (text_event "黒髪")
                  (world_of {| step := await_color; faceB64 := str (js "F");
                               style := str (js "ボブ"); color := null;
                               modelB64 := undefined |})) = [].
Proof.
  refine (proj1 (failed_generating_reply_stops_pipeline reply_down_env
                   (text_event "黒髪")
                   (world_of {| step := await_color; faceB64 := str (js "F");
                                style := str (js "ボブ"); color := null;
                                modelB64 := undefined |})
                   (Some (js "黒髪")) eq_refl eq_refl eq_refl _ eq_refl eq_refl eq_refl)).
  vm_compute. discriminate.
Defined.

(** X15. A pipeline that delivers the completion message has delivered
    exactly three messages: the "generating" reply, then the image, whose
    content and preview URL are both the URL the file store returned for
    the image Gemini returned, then the completion message. The Gemini call
    got the stored selfie, the stored reference image or [null], the stored
    style, and as color the text (the empty string for [そのまま]). *)
Theorem completed_pipeline_messages (E : Env) (ev : Event) (w : World)
    (text : option jsstring) :
  type ev = type_message (text_in text) ->
  isGreeting (trimmed_text text) = false ->
  test_literal (js "モデル写真") (trimmed_text text) = false ->
  trimmed_text text <> js "自由入力✍️" ->
  step (current_state w (userId ev)) = await_color ->
  truthy (faceB64 (current_state w (userId ev))) = true ->
  In msg_done (delivered (emitted E ev w)) ->
  exists img url,
    delivered (emitted E ev w) = [msg_generating; image_message url url; msg_done]
    /\ In (io_callGeminiImageCompose
             {| arg_faceB64 := faceB64 (current_state w (userId ev));
                arg_modelB64 := or_null (modelB64 (current_state w (userId ev)));
                arg_style := style (current_state w (userId ev));
                arg_color := str (color_value (trimmed_text text)) |}
             (resolved img)) (emitted E ev w)
    /\ In (io_saveTempImage img (userId ev) (js "hair") (resolved url)) (emitted E ev w).
Proof.
  intros Ht Hg Hm Hf Hs Hface Hdone.
  pose proof (handleEvent_text E ev text w Ht) as Hev.
  rewrite (handleText_await_color E _ _ _ _ _ _ Hg Hm Hf Hs), Hface in Hev.
  destruct (trigger_tail E ev w _ _ Hev) as (c & st' & Hrun & Hst & Hc).
  remember (emitted E ev w) as em eqn:Hem. clear Hem.
  destruct Hrun as [trr e Hr|trr r trg st2 c2 Hr Hrun].
  - rewrite (delivered_reply _ _ _ _ Hr) in Hdone. contradiction.
  - rewrite delivered_app, (delivered_reply _ _ _ _ Hr) in Hdone.
    destruct Hdone as [Hd|Hd]; [discriminate|].
    destruct (generate_run_delivered_done _ _ _ _ _ Hrun Hd)
      as (img & url & Hgem & Hsave & Hdel).
    exists img, url.
    rewrite delivered_app, (delivered_reply _ _ _ _ Hr), Hdel.
    split; [reflexivity|]. split; apply in_app_iff; right; assumption.
Qed.

Lemma completed_pipeline_messages_witness :
  exists img url,
    delivered (emitted calm_env (text_event "そのまま")
                 (world_of {| step := await_color; faceB64 := str (js "F");
                              style := str (js "ボブ"); color := null;
                              modelB64 := undefined |}))
    = [msg_generating; image_message url url; msg_done]
    /\ In (io_callGeminiImageCompose
             {| arg_faceB64 := str (js "F"); arg_modelB64 := null;
                arg_style := str (js "ボブ"); arg_color := str [] |}
             (resolved img))
          (emitted calm_env (text_event "そのまま")
             (world_of {| step := await_color; faceB64 := str (js "F");
                          style := str (js "ボブ"); color := null;
                          modelB64 := undefined |}))
    /\ In (io_saveTempImage img (js "U1") (js "hair") (resolved url))
          (emitted calm_env (text_event "そのまま")
             (world_of {| step := await_color; faceB64 := str (js "F");
                          style := str (js "ボブ"); color := null;
                          modelB64 := undefined |})).
Proof.
  refine (completed_pipeline_messages calm_env (text_event "そのまま")
            (world_of {| step := await_color; faceB64 := str (js "F");
                         style := str (js "ボブ"); color := null;
                         modelB64 := undefined |})
            (Some (js "そのまま")) eq_refl eq_refl eq_refl _ eq_refl eq_refl _).
  - vm_compute. discriminate.
  - vm_compute. right; right; left; reflexivity.
Defined.

(** X16. An event that is no message, or a message that is neither an
    image nor a text (a sticker, say), sends nothing and completes
    normally; its only effect is to create the initial state for a sender
    who had none, and a sender who had one finds it unchanged. *)
Theorem other_events_only_create_state (E : Env) (ev : Event) (w : World) :
  type ev = type_other \/ type ev = type_message other_in ->
  handleEvent E ev w
  = (Normal None,
     mkWorld (<[userId ev := current_state w (userId ev)]> (userState w)) (trace w))
  /\ emitted E ev w = []
  /\ (userState w !! userId ev = None ->
      userState (after E ev w) !! userId ev = Some fresh_state)
  /\ (userState w !! userId ev <> None -> after E ev w = w).
Proof.
  intros Ht.
  assert (H : handleEvent E ev w
              = (Normal None,
                 mkWorld (<[userId ev := current_state w (userId ev)]> (userState w))
                         (trace w))).
  { unfold handleEvent, bind. rewrite ensure_user_run.
    destruct Ht as [-> | ->]; reflexivity. }
  split; [exact H|]. unfold emitted, after. rewrite H. cbn [snd trace userState].
  split; [apply drop_all|]. split.
  - intros Hn. rewrite lookup_insert_eq. unfold current_state. now rewrite Hn.
  - intros Hn. unfold current_state. destruct w as [m tr]. cbn [userState trace] in *.
    destruct (m !! userId ev) as [st|] eqn:Hl; [|contradiction].
    now rewrite insert_id.
Qed.

Lemma other_events_only_create_state_witness :
  emitted calm_env (other_event "U9") no_users = [].
Proof.
  exact (proj1 (proj2 (other_events_only_create_state calm_env (other_event "U9")
                         no_users (or_introl eq_refl)))).
Defined.

(** ** Trimming *)

Lemma trimStart_split s :
  exists l,
    s = l ++ trimStart s
    /\ forallb isWhiteSpace l = true
    /\ match trimStart s with [] => True | c :: _ => isWhiteSpace c = false end.
Proof.
  induction s as [|c s (l & Hs & Hl & Hh)].
  - now exists [].
  - simpl. destruct (isWhiteSpace c) eqn:Hc.
    + exists (c :: l). simpl. rewrite Hc, Hl. split; [now f_equal|]. now split.
    + exists []. now repeat split.
Qed.

Lemma trimStart_app t r :
  trimStart (t ++ r)
  = if forallb isWhiteSpace t then trimStart r else trimStart t ++ r.
Proof.
  induction t as [|c t IH]; [reflexivity|].
  simpl. destruct (isWhiteSpace c); [exact IH|reflexivity].
Qed.

Lemma trimStart_white l : forallb isWhiteSpace l = true -> trimStart l = [].
Proof.
  induction l as [|c l IH]; [reflexivity|].
  simpl. destruct (isWhiteSpace c); [exact IH|discriminate].
Qed.

Lemma forallb_rev {A} (f : A -> bool) l : forallb f (rev l) = forallb f l.
Proof.
  induction l as [|a l IH]; [reflexivity|].
  simpl. rewrite forallb_app, IH. simpl. rewrite andb_true_r. apply andb_comm.
Qed.

Lemma trim_white_around l t r :
  forallb isWhiteSpace l = true -> forallb isWhiteSpace r = true ->
  trim (l ++ t ++ r) = trim t.
Proof.
  intros Hl Hr. unfold trim, trimEnd.
  rewrite trimStart_app, Hl, trimStart_app, (trimStart_white r Hr).
  destruct (forallb isWhiteSpace t) eqn:Ht.
  - now rewrite (trimStart_white t Ht).
  - rewrite rev_app_distr, trimStart_app, forallb_rev, Hr. reflexivity.
Qed.

(** [trim] takes off white space at both ends and nothing else: the
    text is the trimmed text with white space before and after it, and the
    trimmed text neither starts nor ends with white space. So trimming twice
    is trimming once, and a text of white space only trims to the empty
    text. *)
Lemma trim_takes_white_space_off_the_ends (s : jsstring) :
  (exists l r,
      s = l ++ trim s ++ r
      /\ forallb isWhiteSpace l = true /\ forallb isWhiteSpace r = true)
  /\ match trim s with [] => True | c :: _ => isWhiteSpace c = false end
  /\ match rev (trim s) with [] => True | c :: _ => isWhiteSpace c = false end
  /\ trim (trim s) = trim s
  /\ (forallb isWhiteSpace s = true -> trim s = []).
Proof.
  destruct (trimStart_split s) as (l & Hs & Hl & Hh).
  destruct (trimStart_split (rev (trimStart s))) as (l' & Hs' & Hl' & Hh').
  assert (Hsplit : trimStart s = trim s ++ rev l').
  { unfold trim, trimEnd. rewrite <- rev_app_distr, <- Hs'. now rewrite rev_involutive. }
  assert (Hwhole : s = l ++ trim s ++ rev l') by (now rewrite <- Hsplit).
  assert (Hr : forallb isWhiteSpace (rev l') = true) by (now rewrite forallb_rev).
  split; [now exists l, (rev l')|].
  split.
  { rewrite Hsplit in Hh. destruct (trim s); [exact I|exact Hh]. }
  split.
  { unfold trim, trimEnd. now rewrite rev_involutive. }
  split.
  { rewrite Hwhole at 2. now rewrite trim_white_around. }
  intros Hall. unfold trim, trimEnd. now rewrite (trimStart_white s Hall).
Qed.

(** X17. White space before and after a text makes no difference to how
    the text is handled. *)
Theorem white_space_around_text_is_ignored (E : Env) (ev1 ev2 : Event) (w : World)
    (l t r : jsstring) :
  forallb isWhiteSpace l = true ->
  forallb isWhiteSpace r = true ->
  userId ev1 = userId ev2 ->
  replyToken ev1 = replyToken ev2 ->
  type ev1 = type_message (text_in (Some (l ++ t ++ r))) ->
  type ev2 = type_message (text_in (Some t)) ->
  handleEvent E ev1 w = handleEvent E ev2 w.
Proof.
  intros Hl Hr Hu Htok H1 H2.
  rewrite (handleEvent_text E ev1 _ w H1), (handleEvent_text E ev2 _ w H2), Hu, Htok.
  unfold handleText, trimmed_text. now rewrite (trim_white_around l t r Hl Hr).
Qed.

Lemma white_space_around_text_is_ignored_witness :
  handleEvent calm_env (text_event "　 ボブ  ") no_users
  = handleEvent calm_env (text_event "ボブ") no_users.
Proof.
  exact (white_space_around_text_is_ignored calm_env (text_event "　 ボブ  ")
           (text_event "ボブ") no_users (js "　 ") (js "ボブ") (js "  ")
           eq_refl eq_refl eq_refl eq_refl eq_refl eq_refl).
Defined.

(** ** Names of the temporary files *)

Lemma digits_no_underscore u : ~ In 0x5F (digits u).
Proof.
  induction u; simpl; intros H; try contradiction;
    destruct H as [H|H]; try discriminate; auto.
Qed.

Lemma digits_inj u u' : digits u = digits u' -> u = u'.
Proof.
  revert u'. induction u; intros u' H; destruct u'; simpl in H;
    try discriminate; try reflexivity; injection H as H; f_equal; auto.
Qed.

Lemma split_at_first {A} (x : A) (a a' b b' : list A) :
  ~ In x a -> ~ In x a' -> a ++ x :: b = a' ++ x :: b' -> a = a' /\ b = b'.
Proof.
  revert a'. induction a as [|y a IH]; intros a' Ha Ha' H.
  - destruct a' as [|y' a']; simpl in H.
    + injection H as ->. now split.
    + injection H as <- _. exfalso. apply Ha'. now left.
  - destruct a' as [|y' a']; simpl in H.
    + injection H as -> _. exfalso. apply Ha. now left.
    + injection H as -> H. destruct (IH a') as [-> ->]; auto.
      * intros Hi. apply Ha. now right.
      * intros Hi. apply Ha'. now right.
Qed.

(** X18. For one prefix, the name of a temporary file determines the
    user and the time stamp: two users never get the same file name, and
    neither do two saves for one user at different milliseconds. The same
    holds of the public URLs under one base URL. *)
Theorem temp_names_are_unique (base prefix u u' : jsstring) (n n' : N) :
  temp_url base (temp_filename prefix u n) = temp_url base (temp_filename prefix u' n') ->
  u = u' /\ n = n'.
Proof.
  unfold temp_url, temp_filename, number_text. intros H.
  apply app_inv_head in H. apply app_inv_head in H.
  apply app_inv_head in H. apply app_inv_head in H.
  rewrite !app_assoc in H. apply app_inv_tail in H.
  apply (f_equal (@rev N)) in H. rewrite !rev_app_distr in H.
  change (rev (js "_")) with [0x5F] in H. simpl in H.
  apply split_at_first in H.
  - destruct H as [Hd Hu].
    apply (f_equal (@rev N)) in Hd, Hu. rewrite !rev_involutive in Hd, Hu.
    split; [assumption|].
    now apply DecimalN.Unsigned.to_uint_inj, digits_inj.
  - rewrite <- in_rev. apply digits_no_underscore.
  - rewrite <- in_rev. apply digits_no_underscore.
Qed.

Lemma temp_names_are_unique_witness :
  js "Uabc_1" = js "Uabc_1" /\ 1730000000000 = 1730000000000.
Proof.
  apply (temp_names_are_unique (js "https://bot.example") (js "hair")
           (js "Uabc_1") (js "Uabc_1") 1730000000000 1730000000000).
  reflexivity.
Defined.

(** ** The Gemini client *)

Lemma color_value_empty txt :
  color_value txt = [] <-> txt = js "そのまま" \/ txt = [].
Proof.
  unfold color_value. destruct (bool_decide (txt = js "そのまま")) eqn:Hk.
  - apply bool_decide_eq_true_1 in Hk. tauto.
  - apply bool_decide_eq_false_1 in Hk. split; [tauto|]. intros [H|H]; tauto.
Qed.

Lemma join_second (sep a b c d e : jsstring) :
  test_literal b (join sep [a; b; c; d; e]) = true.
Proof.
  apply test_literal_infix.
  exists (a ++ sep), (sep ++ c ++ sep ++ d ++ sep ++ e).
  simpl. now rewrite <- !app_assoc.
Qed.

Lemma join_third (sep a b c d e : jsstring) :
  test_literal c (join sep [a; b; c; d; e]) = true.
Proof.
  apply test_literal_infix.
  exists (a ++ sep ++ b ++ sep), (sep ++ d ++ sep ++ e).
  simpl. now rewrite <- !app_assoc.
Qed.

(** X19. What the user chose reaches Gemini in the instruction: a
    non-empty style appears in it as [髪型のカテゴリは「...」です。], and the
    color taken from a text in step AWAIT_COLOR appears as
    [髪色は「...」で仕上げてください。], except for [そのまま] and for an empty
    text, for both of which the instruction says that the hair color may
    stay. The request holds the selfie first, the reference image only when
    there is one, and the instruction last. *)
Theorem gemini_request_carries_choices (key : option jsstring) (a : GeminiArgs)
    (s txt : jsstring) :
  arg_style a = str s ->
  arg_color a = str (color_value txt) ->
  (s <> [] ->
   test_literal (js "髪型のカテゴリは「" ++ s ++ js "」です。")
     (gemini_prompt (arg_style a) (arg_color a)) = true)
  /\ (if bool_decide (txt = js "そのまま") || bool_decide (txt = [])
      then test_literal (js "髪色は顔写真のままでもOKです。")
             (gemini_prompt (arg_style a) (arg_color a)) = true
      else test_literal (js "髪色は「" ++ txt ++ js "」で仕上げてください。")
             (gemini_prompt (arg_style a) (arg_color a)) = true)
  /\ req_parts (gemini_request key a)
     = inline_data_part (js "image/jpeg") (arg_faceB64 a)
       :: (if truthy (arg_modelB64 a)
           then [inline_data_part (js "image/jpeg") (arg_modelB64 a)]
           else [])
       ++ [text_part (gemini_prompt (arg_style a) (arg_color a))].
Proof.
  intros Hs Hc. split; [|split; [|reflexivity]]; rewrite Hs, Hc.
  - intros Hne. unfold gemini_prompt. destruct s as [|c s]; [contradiction|].
    cbn [truthy template_text]. apply join_second.
  - destruct (bool_decide (txt = js "そのまま") || bool_decide (txt = [])) eqn:Hk.
    + assert (He : color_value txt = []).
      { apply color_value_empty. apply orb_true_iff in Hk.
        destruct Hk as [Hk|Hk]; apply bool_decide_eq_true_1 in Hk; tauto. }
      rewrite He. unfold gemini_prompt. cbn [truthy]. apply join_third.
    + apply orb_false_iff in Hk. destruct Hk as [Hk1 Hk2].
      unfold color_value. rewrite Hk1.
      apply bool_decide_eq_false_1 in Hk2.
      unfold gemini_prompt. destruct txt as [|c txt]; [contradiction|].
      cbn [truthy template_text]. apply join_third.
Qed.

Lemma gemini_request_carries_choices_witness :
  test_literal (js "髪色は顔写真のままでもOKです。")
    (gemini_prompt (arg_style sample_args) (arg_color sample_args)) = true.
Proof.
  exact (proj1 (proj2 (gemini_request_carries_choices None sample_args
                         (js "ボブ") (js "そのまま") eq_refl eq_refl))).
Defined.

Section GeminiClientFacts.

Variable number : Type.
Variable number_truthy : number -> bool.

(** An element that [find] passes over without an error. *)
Definition passed_over (q : json number) : Prop :=
  q <> JNull /\ json_truthy number number_truthy (image_data number q) = false.

Lemma find_image_part_spec (items : list (json number)) :
  match find_image_part number number_truthy items with
  | Normal (Some p) =>
      exists before after,
        items = before ++ p :: after
        /\ Forall passed_over before
        /\ json_truthy number number_truthy (image_data number p) = true
  | Normal None => Forall passed_over items
  | Throw e =>
      e = TypeError "Cannot read properties of null (reading 'inline_data')"
      /\ exists before after,
           items = before ++ JNull :: after /\ Forall passed_over before
  end.
Proof.
  induction items as [|q items IH]; [constructor|].
  assert (Hstep : q <> JNull ->
                  find_image_part number number_truthy (q :: items)
                  = if json_truthy number number_truthy (image_data number q)
                    then Normal (Some q)
                    else find_image_part number number_truthy items).
  { intros Hq. destruct q; try reflexivity. contradiction. }
  destruct q as [|b|n|s|l|fs].
  { simpl. split; [reflexivity|]. now exists [], items. }
  all: rewrite Hstep by discriminate;
    match goal with |- context [json_truthy _ _ (image_data _ ?q)] =>
      destruct (json_truthy number number_truthy (image_data number q)) eqn:Hq;
      [exists [], items; repeat split; auto|];
      assert (Hp : passed_over q) by (split; [discriminate|exact Hq])
    end;
    destruct (find_image_part number number_truthy items) as [[p|]|e];
    [ destruct IH as (before & after & -> & Hb & Hi);
      eexists (_ :: before), after; repeat split; auto
    | now constructor
    | destruct IH as (-> & before & after & -> & Hb); split; [reflexivity|];
      eexists (_ :: before), after; split; [reflexivity|now constructor] ].
Qed.

End GeminiClientFacts.

(** X20. For an answer with a success status, a JSON body and an array
    of parts, [callGeminiImageCompose] returns the [inline_data.data] of the
    first part that has a truthy one, and the value returned is never empty;
    parts before it are passed over, parts after it are not looked at. With
    no such part it throws "No image data returned from Gemini."; a [null]
    part met before an image part makes it throw the TypeError
    [Cannot read properties of null (reading 'inline_data')] instead. *)
Theorem gemini_result_is_first_image (number : Type) (number_truthy : number -> bool)
    (fetch : GeminiRequest -> Settled (FetchResponse number))
    (key : option jsstring) (a : GeminiArgs)
    (resp : FetchResponse number) (data : json number) (items : list (json number)) :
  fetch (gemini_request key a) = resolved resp ->
  ok number resp = true ->
  body_json number resp = resolved data ->
  response_parts number number_truthy data = JArray items ->
  match callGeminiImageCompose_impl number number_truthy fetch key a with
  | Normal d =>
      json_truthy number number_truthy (Some d) = true
      /\ exists before p after,
           items = before ++ p :: after
           /\ Forall (passed_over number number_truthy) before
           /\ image_data number p = Some d
  | Throw e =>
      (e = Error "No image data returned from Gemini."
       /\ Forall (passed_over number number_truthy) items)
      \/ (e = TypeError "Cannot read properties of null (reading 'inline_data')"
          /\ exists before after,
               items = before ++ JNull :: after
               /\ Forall (passed_over number number_truthy) before)
  end.
Proof.
  intros Hf Hok Hj Hp. unfold callGeminiImageCompose_impl.
  rewrite Hf, Hok, Hj, Hp. cbn [negb].
  pose proof (find_image_part_spec number number_truthy items) as Hspec.
  destruct (find_image_part number number_truthy items) as [[p|]|e].
  - destruct Hspec as (before & after & -> & Hb & Hi).
    destruct (image_data number p) as [d|] eqn:Hd; [|discriminate].
    split; [exact Hi|]. now exists before, p, after.
  - now left.
  - now right.
Qed.

Lemma gemini_result_is_first_image_witness :
  json_truthy Z Z_truthy (Some (JString (js "aW1n"))) = true
  /\ exists before p after,
       sample_parts = before ++ p :: after
       /\ Forall (passed_over Z Z_truthy) before
       /\ image_data Z p = Some (JString (js "aW1n")).
Proof.
  exact (gemini_result_is_first_image Z Z_truthy
           (sample_fetch 200 sample_response) None sample_args
           _ sample_response sample_parts eq_refl eq_refl eq_refl eq_refl).
Defined.

(** X21. An answer without a usable list of parts gives the same "No
    image data" error: the body [null], an object without [candidates], an
    empty [candidates] array, a candidate without [content] or a content
    without [parts] (or with a falsy one) all count as an empty list. *)
Theorem gemini_missing_parts_is_no_image (number : Type) (number_truthy : number -> bool)
    (fetch : GeminiRequest -> Settled (FetchResponse number))
    (key : option jsstring) (a : GeminiArgs)
    (resp : FetchResponse number) (data : json number) :
  fetch (gemini_request key a) = resolved resp ->
  ok number resp = true ->
  body_json number resp = resolved data ->
  json_truthy number number_truthy
    (chain number
       (chain number
          (chain number
             (chain number (Some data) (get_named number (js "candidates")))
             (get_first number))
          (get_named number (js "content")))
       (get_named number (js "parts"))) = false ->
  callGeminiImageCompose_impl number number_truthy fetch key a
  = Throw (Error "No image data returned from Gemini.").
Proof.
  intros Hf Hok Hj Hp. unfold callGeminiImageCompose_impl, response_parts.
  rewrite Hf, Hok, Hj. cbv zeta. now rewrite Hp.
Qed.

Lemma gemini_missing_parts_is_no_image_witness :
  callGeminiImageCompose_impl Z Z_truthy
    (sample_fetch 200 (JObject [(js "candidates", JArray [])])) None sample_args
  = Throw (Error "No image data returned from Gemini.").
Proof.
  exact (gemini_missing_parts_is_no_image Z Z_truthy
           (sample_fetch 200 (JObject [(js "candidates", JArray [])])) None sample_args
           _ _ eq_refl eq_refl eq_refl eq_refl).
Defined.

(** X22. An answer whose status is not a success makes
    [callGeminiImageCompose] throw "Gemini API error" followed by the status
    in decimal, whatever the body holds; the body is read as text only, and
    if that read fails its error is thrown instead. *)
Theorem gemini_http_error (number : Type) (number_truthy : number -> bool)
    (fetch : GeminiRequest -> Settled (FetchResponse number))
    (key : option jsstring) (a : GeminiArgs) (resp : FetchResponse number) :
  fetch (gemini_request key a) = resolved resp ->
  ok number resp = false ->
  callGeminiImageCompose_impl number number_truthy fetch key a
  = match body_text number resp with
    | resolved _ =>
        Throw (Error ("Gemini API error "
                      ++ NilEmpty.string_of_uint (N.to_uint (status number resp))))
    | rejected e => Throw e
    end.
Proof.
  intros Hf Hok. unfold callGeminiImageCompose_impl. rewrite Hf, Hok. reflexivity.
Qed.

Lemma gemini_http_error_witness :
  callGeminiImageCompose_impl Z Z_truthy
    (sample_fetch 429 sample_response) None sample_args
  = Throw (Error "Gemini API error 429").
Proof.
  exact (gemini_http_error Z Z_truthy
           (sample_fetch 429 sample_response) None sample_args _ eq_refl eq_refl).
Defined.
